(** * Conversation turn engine of the confidant client

    Shallow embedding of the turn stores of [src/lib/logStore.ts] and
    [src/lib/state.ts], of the rapport analysis and session adapter of the
    live-API hook, and of the message pacing function [splitMessage] of
    [StreamingConsole.tsx], with the properties the specification states
    about them.

    Conventions.
    - A JavaScript string is its sequence of UTF-16 code units, [list N];
      [js "Hi"] writes an ASCII literal.
    - [new Date()] is a reading of the clock, passed in as [now]
      (milliseconds since the epoch).
    - A zustand store is a record; [set] is a function to the next record.
      The two stores are threaded together as a [World].
    - A React state cell is a field of the session; a handler reads the
      value the cell had at the render it was bound at, kept apart from
      the cell as a [Rendered] where events are run in sequence. *)

From Stdlib Require Import ZArith NArith QArith Qcanon Lia List String Ascii Bool.
From Stdlib Require DecimalString.
From stdpp Require Import base decidable option list numbers.

Local Open Scope Z_scope.

(** ** JavaScript strings *)

Abbreviation jsstring := (list N).

Definition js (s : string) : jsstring :=
  List.map N_of_ascii (list_ascii_of_string s).

(** Truthiness of a string: every string but the empty one. *)
Definition truthy (s : jsstring) : bool :=
  match s with [] => false | _ :: _ => true end.

(** Truthiness of [string | null] and of [string | undefined]. *)
Definition truthy_opt (o : option jsstring) : bool :=
  match o with Some s => truthy s | None => false end.

(** ** Turn model ([logStore.ts], interface ConversationTurn) *)

Inductive Role := user | agent | system.

#[global] Instance Role_eq_dec : EqDecision Role.
Proof. solve_decision. Defined.

Record ConversationTurn := mkTurn {
  timestamp : Z;
  role : Role;
  text : jsstring;
  isFinal : bool;
  reaction : option jsstring
}.

#[global] Instance ConversationTurn_eq_dec : EqDecision ConversationTurn.
Proof. solve_decision. Defined.

(** [Partial<ConversationTurn>]: each key present or absent. For [reaction]
    an absent key and a key holding [undefined] read the same. *)
Record TurnUpdates := mkUpdates {
  u_timestamp : option Z;
  u_role : option Role;
  u_text : option jsstring;
  u_isFinal : option bool;
  u_reaction : option jsstring
}.

Definition noUpdates : TurnUpdates := mkUpdates None None None None None.

(** The object [{reaction: r}]. *)
Definition reactionUpdate (r : jsstring) : TurnUpdates :=
  mkUpdates None None None None (Some r).

(** ** Numbers a JSON reply can hold

    [JSON.parse] yields finite numbers and, for literals out of the double
    range, an infinity; it never yields NaN. *)

Inductive jsnum := Fin (q : Qc) | PosInf | NegInf.

Definition num_leb (a b : jsnum) : bool :=
  match a, b with
  | NegInf, _ => true
  | _, PosInf => true
  | Fin x, Fin y => bool_decide (x ≤ y)%Qc
  | _, _ => false
  end.

Definition Math_min (a b : jsnum) : jsnum := if num_leb a b then a else b.
Definition Math_max (a b : jsnum) : jsnum := if num_leb a b then b else a.

Definition num_of_Z (z : Z) : jsnum := Fin (Qc_of_Z z).

(** ** Application store ([state.ts]) *)

(** The persona record, with the fields the modelled operations read or
    write; [traits], [journalData] and [sharedMemory] are carried by no
    operation below and are left out. [unreadCount] is optional. *)
Record Persona := mkPersona {
  id : jsstring;
  name : jsstring;
  backstory : jsstring;
  relationshipToUser : jsstring;
  voice : jsstring;
  chatHistory : list ConversationTurn;
  rapport : jsnum;
  unreadCount : option nat
}.

Definition with_chatHistory (p : Persona) (h : list ConversationTurn) : Persona :=
  mkPersona (id p) (name p) (backstory p) (relationshipToUser p) (voice p)
            h (rapport p) (unreadCount p).

Definition with_unreadCount (p : Persona) (n : nat) : Persona :=
  mkPersona (id p) (name p) (backstory p) (relationshipToUser p) (voice p)
            (chatHistory p) (rapport p) (Some n).

Definition with_rapport (p : Persona) (r : jsnum) : Persona :=
  mkPersona (id p) (name p) (backstory p) (relationshipToUser p) (voice p)
            (chatHistory p) r (unreadCount p).

Record AppState := mkApp {
  personas : list Persona;
  activePersonaId : option jsstring;
  userName : option jsstring
}.

Definition set_personas (st : AppState) (ps : list Persona) : AppState :=
  mkApp ps (activePersonaId st) (userName st).

Definition has_id (pid : jsstring) (p : Persona) : bool :=
  bool_decide (id p = pid).

(** [p.id === personaId ? f p : p] mapped over the personas. *)
Definition map_persona (pid : jsstring) (f : Persona -> Persona)
    (ps : list Persona) : list Persona :=
  List.map (fun p => if has_id pid p then f p else p) ps.

Definition getPersonaById (st : AppState) (pid : jsstring) : option Persona :=
  List.find (has_id pid) (personas st).

Definition getActivePersona (st : AppState) : option Persona :=
  match activePersonaId st with
  | Some i => if truthy i then List.find (has_id i) (personas st) else None
  | None => None
  end.

Definition updatePersonaChatHistory (pid : jsstring)
    (h : list ConversationTurn) (st : AppState) : AppState :=
  set_personas st (map_persona pid (fun p => with_chatHistory p h) (personas st)).

(** [p.unreadCount || 0] *)
Definition unread (p : Persona) : nat := default 0%nat (unreadCount p).

Definition incrementPersonaUnreadCount (pid : jsstring) (st : AppState) : AppState :=
  set_personas st
    (map_persona pid (fun p => with_unreadCount p (unread p + 1)) (personas st)).

Definition clearPersonaUnreadCount (pid : jsstring) (st : AppState) : AppState :=
  set_personas st (map_persona pid (fun p => with_unreadCount p 0) (personas st)).

(** [updatePersona(id, {rapport})] *)
Definition updatePersona_rapport (pid : jsstring) (r : jsnum) (st : AppState) : AppState :=
  set_personas st (map_persona pid (fun p => with_rapport p r) (personas st)).

(** [newHistory[turnIndex]] for a number index: defined on the integers
    [0 <= i < length]. *)
Definition at_index {A} (l : list A) (i : Z) : option A :=
  if 0 <=? i then l !! Z.to_nat i else None.

(** [{ ...turn, ...updates, reaction: newReaction }] *)
Definition applyUpdates (t : ConversationTurn) (u : TurnUpdates)
    (newReaction : option jsstring) : ConversationTurn :=
  mkTurn (default (timestamp t) (u_timestamp u))
         (default (role t) (u_role u))
         (default (text t) (u_text u))
         (default (isFinal t) (u_isFinal u))
         newReaction.

(** The body of [updateTurnInHistory] for the matching persona. *)
Definition updateTurnInPersona (turnIndex : Z) (u : TurnUpdates) (p : Persona) : Persona :=
  let newHistory := chatHistory p in
  match at_index newHistory turnIndex with
  | Some t =>
      let currentReaction := reaction t in
      let newReaction :=
        if truthy_opt (u_reaction u) && bool_decide (currentReaction = u_reaction u)
        then None else u_reaction u in
      with_chatHistory p (<[Z.to_nat turnIndex := applyUpdates t u newReaction]> newHistory)
  | None => with_chatHistory p newHistory
  end.

Definition updateTurnInHistory (pid : jsstring) (turnIndex : Z) (u : TurnUpdates)
    (st : AppState) : AppState :=
  set_personas st (map_persona pid (updateTurnInPersona turnIndex u) (personas st)).

(** ** View store ([logStore.ts]) and the two stores together *)

Record LogStore := mkLog { turns : list ConversationTurn }.

Record World := mkWorld { app : AppState; log : LogStore }.

Definition clearTurns (w : World) : World := mkWorld (app w) (mkLog []).
Definition setTurns (ts : list ConversationTurn) (w : World) : World :=
  mkWorld (app w) (mkLog ts).

(** [selectPersona(id)] of the application store. *)
Definition selectPersona (i : option jsstring) (w : World) : World :=
  let w1 :=
    match i with
    | Some pid =>
        if truthy pid then
          let a := clearPersonaUnreadCount pid (app w) in
          let nextPersona := List.find (has_id pid) (personas a) in
          setTurns (from_option chatHistory [] nextPersona) (mkWorld a (log w))
        else w
    | None => w
    end in
  mkWorld (mkApp (personas (app w1)) i (userName (app w1))) (log w1).

(** The history [appendTurn] computes from the current one. *)
Definition appendedHistory (now : Z) (r : Role) (textChunk : jsstring)
    (fin : option bool) (currentHistory : list ConversationTurn)
    : list ConversationTurn :=
  let newHistory := currentHistory in
  match list.last newHistory with
  | Some l =>
      if bool_decide (role l = r) && negb (isFinal l) then
        let updatedTurn :=
          mkTurn (timestamp l) (role l) (text l ++ textChunk)
                 (match fin with Some b => b | None => isFinal l end)
                 (reaction l) in
        <[(length newHistory - 1)%nat := updatedTurn]> newHistory
      else
        newHistory ++ [mkTurn now r textChunk (default false fin) None]
  | None =>
      newHistory ++ [mkTurn now r textChunk (default false fin) None]
  end.

(** [appendTurn(personaId, role, textChunk, isFinal?)] *)
Definition appendTurn (now : Z) (pid : jsstring) (r : Role) (textChunk : jsstring)
    (fin : option bool) (w : World) : World :=
  match getPersonaById (app w) pid with
  | None => w
  | Some persona =>
      let newHistory := appendedHistory now r textChunk fin (chatHistory persona) in
      let a := updatePersonaChatHistory pid newHistory (app w) in
      if bool_decide (activePersonaId (app w) = Some pid) then
        mkWorld a (mkLog newHistory)
      else if bool_decide (r = agent) then
        mkWorld (incrementPersonaUnreadCount pid a) (log w)
      else
        mkWorld a (log w)
  end.

(** [finalizeTurn()] *)
Definition finalizeTurn (w : World) : World :=
  match activePersonaId (app w) with
  | None => w
  | Some pid =>
      if negb (truthy pid) then w else
      match getPersonaById (app w) pid with
      | None => w
      | Some persona =>
          let turns := chatHistory persona in
          if (length turns =? 0)%nat then w else
          let newHistory := turns in
          match list.last newHistory with
          | Some l =>
              if negb (isFinal l) then
                let finalizedTurn :=
                  mkTurn (timestamp l) (role l) (text l) true (reaction l) in
                let newHistory :=
                  <[(length newHistory - 1)%nat := finalizedTurn]> newHistory in
                mkWorld (updatePersonaChatHistory pid newHistory (app w))
                        (mkLog newHistory)
              else w
          | None => w
          end
      end
  end.

(** [updateTurn(turnIndex, updates)] *)
Definition updateTurn (turnIndex : Z) (u : TurnUpdates) (w : World) : World :=
  match activePersonaId (app w) with
  | None => w
  | Some pid =>
      if negb (truthy pid) then w else
      let a := updateTurnInHistory pid turnIndex u (app w) in
      match getPersonaById a pid with
      | Some updatedPersona => mkWorld a (mkLog (chatHistory updatedPersona))
      | None => mkWorld a (log w)
      end
  end.

(** A trace of engine calls, as the interaction surface issues them. *)
Inductive EngineOp :=
| OpAppend (now : Z) (pid : jsstring) (r : Role) (textChunk : jsstring) (fin : option bool)
| OpFinalize.

Definition step (w : World) (o : EngineOp) : World :=
  match o with
  | OpAppend now pid r c fin => appendTurn now pid r c fin w
  | OpFinalize => finalizeTurn w
  end.

Definition run (ops : list EngineOp) (w : World) : World := fold_left step ops w.

(** One [appendTurn] call of a burst: clock reading, chunk, [isFinal] argument. *)
Record Chunk := mkChunk { c_now : Z; c_text : jsstring; c_final : option bool }.

Definition appendChunks (pid : jsstring) (r : Role) (cs : list Chunk) (w : World) : World :=
  fold_left (fun w c => appendTurn (c_now c) pid r (c_text c) (c_final c) w) cs w.

(** ** Rapport analysis ([analyzeRapport] of the live-API hook) *)

(** Values of [JSON.parse]. *)
#[local] Unset Elimination Schemes.
Inductive json :=
| JNull
| JBool (b : bool)
| JNum (n : jsnum)
| JStr (s : jsstring)
| JArr (items : list json)
| JObj (fields : list (jsstring * json)).
#[local] Set Elimination Schemes.

(** What the awaited remote call and the parse of its text come to. The
    remote service and [JSON.parse] are outside the repository: their
    result is an input of the model. *)
Inductive ReplyOutcome :=
| RemoteThrows
| TextMissing
| NotJson
| Parsed (v : json).

(** An object built by [JSON.parse] keeps, for a repeated key, the last value. *)
Definition field (k : jsstring) (fields : list (jsstring * json)) : option json :=
  snd <$> List.find (fun kv => bool_decide (fst kv = k)) (rev fields).

Inductive Access := Throws | Undefined | Value (v : json).

(** [parsed.updatedRapport]: a [TypeError] on [null], a key lookup on an
    object, [undefined] on every other value. *)
Definition get_updatedRapport (parsed : json) : Access :=
  match parsed with
  | JNull => Throws
  | JObj fields => from_option Value Undefined (field (js "updatedRapport") fields)
  | _ => Undefined
  end.

(** [Math.max(0, Math.min(1000, x))] *)
Definition clampRapport (x : jsnum) : jsnum :=
  Math_max (num_of_Z 0) (Math_min (num_of_Z 1000) x).

(** The guard before the remote call: [true] when the analysis goes on. *)
Definition analyzeRapport_proceeds (st : AppState) (pid : jsstring)
    (exchange : list ConversationTurn) : bool :=
  match getPersonaById st pid with
  | None => false
  | Some _ => negb (length exchange =? 0)%nat
  end.

(** The code after the [await], on the store as it is when the reply arrives. *)
Definition analyzeRapport_resume (pid : jsstring) (o : ReplyOutcome)
    (st : AppState) : AppState :=
  match o with
  | Parsed parsed =>
      match get_updatedRapport parsed with
      | Value (JNum n) => updatePersona_rapport pid (clampRapport n) st
      | _ => st
      end
  | _ => st
  end.

(** [analyzeRapport(personaId, exchange)]: [st0] is the store at the call,
    [st] the store when the remote reply arrives. *)
Definition analyzeRapport (pid : jsstring) (exchange : list ConversationTurn)
    (o : ReplyOutcome) (st0 st : AppState) : AppState :=
  if analyzeRapport_proceeds st0 pid exchange
  then analyzeRapport_resume pid o st
  else st.

(** ** Streaming session adapter (the live-API hook) *)

(** A dispatched [updatePersonaJournal(personaId, turns)] call. *)
Record JournalJob := mkJob { job_persona : jsstring; job_turns : list ConversationTurn }.

(** [connected] is the cell that [setConnected] writes. A handler tests
    the value the cell had at the render the handler was bound at; the
    handlers below are those of a render that is current, where the two
    agree. *)
Record Session := mkSession {
  world : World;
  connected : bool;
  activeCallPersonaId : option jsstring;
  journalJobs : list JournalJob;      (* dispatched so far, oldest first *)
  clientDisconnects : nat             (* calls of client.disconnect() *)
}.

(** [disconnect()] *)
Definition disconnect (s : Session) : Session :=
  let disconnects := S (clientDisconnects s) in
  let personaId := activeCallPersonaId s in
  match personaId with
  | Some pid =>
      if truthy pid then
        let currentTurns := turns (log (world s)) in
        if (0 <? length currentTurns)%nat then
          mkSession (clearTurns (world s)) false None
                    (journalJobs s ++ [mkJob pid currentTurns]) disconnects
        else mkSession (world s) false None (journalJobs s) disconnects
      else mkSession (world s) false None (journalJobs s) disconnects
  | None => mkSession (world s) false None (journalJobs s) disconnects
  end.

(** The [open] handler: [setConnected(true)]. *)
Definition onOpen (s : Session) : Session :=
  mkSession (world s) true (activeCallPersonaId s) (journalJobs s) (clientDisconnects s).

(** The [close] handler, as bound at a render that is current. *)
Definition onClose (s : Session) : Session :=
  let s1 := if connected s then disconnect s else s in
  mkSession (world s1) false (activeCallPersonaId s1) (journalJobs s1) (clientDisconnects s1).

(** ** Message pacing ([splitMessage] of StreamingConsole.tsx) *)

(** White space and line terminators, as [String.prototype.trim] strips them. *)
Definition isWhite (c : N) : bool :=
  ((9 <=? c) && (c <=? 13) || (c =? 32) || (c =? 160) || (c =? 5760)
   || (8192 <=? c) && (c <=? 8202) || (c =? 8232) || (c =? 8233)
   || (c =? 8239) || (c =? 8287) || (c =? 12288) || (c =? 65279))%N.

Fixpoint trimStart (s : jsstring) : jsstring :=
  match s with
  | c :: s' => if isWhite c then trimStart s' else s
  | [] => []
  end.

Definition trimEnd (s : jsstring) : jsstring := rev (trimStart (rev s)).

Definition trim (s : jsstring) : jsstring := trimEnd (trimStart s).

(** [needle] occurs in [s] at index 0. *)
Fixpoint startsWith (needle s : jsstring) : bool :=
  match needle, s with
  | [], _ => true
  | a :: needle', b :: s' => (a =? b)%N && startsWith needle' s'
  | _ :: _, [] => false
  end.

(** The largest index [k' <= k] at which [needle] occurs in [s], or -1. *)
Fixpoint lastIndexUpTo (needle s : jsstring) (k : nat) : Z :=
  if startsWith needle (drop k s) then Z.of_nat k
  else match k with
       | O => -1
       | S k' => lastIndexUpTo needle s k'
       end.

(** [s.lastIndexOf(needle, position)] *)
Definition lastIndexOf (s needle : jsstring) (position : Z) : Z :=
  let len := Z.of_nat (length s) in
  lastIndexUpTo needle s (Z.to_nat (Z.min (Z.max position 0) len)).

(** The smallest index at or after [k] at which [needle] occurs, [s] being
    the text from index [k] on; or -1. *)
Fixpoint indexFrom (needle s : jsstring) (k : nat) : Z :=
  if startsWith needle s then Z.of_nat k
  else match s with
       | [] => -1
       | _ :: s' => indexFrom needle s' (S k)
       end.

(** [s.indexOf(needle, position)] *)
Definition indexOf (s needle : jsstring) (position : Z) : Z :=
  let len := Z.of_nat (length s) in
  let start := Z.to_nat (Z.min (Z.max position 0) len) in
  indexFrom needle (drop start s) start.

(** [s.substring(a, b)] *)
Definition substring (s : jsstring) (a b : Z) : jsstring :=
  let len := Z.of_nat (length s) in
  let a' := Z.min (Z.max a 0) len in
  let b' := Z.min (Z.max b 0) len in
  let from := Z.to_nat (Z.min a' b') in
  let to := Z.to_nat (Z.max a' b') in
  take (to - from)%nat (drop from s).

(** [s.substring(a)] *)
Definition substringFrom (s : jsstring) (a : Z) : jsstring :=
  substring s a (Z.of_nat (length s)).

Definition MIN_CHUNK : Z := 20.
Definition MAX_CHUNK : Z := 140.
Definition IDEAL_CHUNK : Z := 80.

(** ['.', '!', '?', '…', '—', '...'] *)
Definition sentenceEndChars : list jsstring :=
  [[46]; [33]; [63]; [8230]; [8212]; [46; 46; 46]]%N.

(** The [for] loop over [sentenceEndChars], from [splitAt = -1]. *)
Definition sentenceSplit (remainingText : jsstring) (slicePoint : Z) : Z :=
  fold_left (fun splitAt char =>
               let pos := lastIndexOf remainingText char slicePoint in
               if pos >? MIN_CHUNK then Z.max splitAt pos else splitAt)
            sentenceEndChars (-1).

(** The [while] loop of [splitMessage]; [fuel] bounds its iterations and
    [None] means the bound was reached. *)
Fixpoint splitLoop (fuel : nat) (remainingText : jsstring) (bubbles : list jsstring)
    : option (list jsstring) :=
  match fuel with
  | O => None
  | S fuel' =>
      let len := Z.of_nat (length remainingText) in
      if negb (len >? 0) then Some bubbles else
      if len <? MAX_CHUNK then Some (bubbles ++ [remainingText]) else
      let slicePoint := Z.min len MAX_CHUNK in
      let splitAt := sentenceSplit remainingText slicePoint in
      if negb (splitAt =? -1) then
        let chunk := substring remainingText 0 (splitAt + 1) in
        splitLoop fuel' (trim (substringFrom remainingText (splitAt + 1)))
                  (bubbles ++ [trim chunk])
      else
      let comma := lastIndexOf remainingText [44%N] slicePoint in
      if comma >? MIN_CHUNK then
        let chunk := substring remainingText 0 (comma + 1) in
        splitLoop fuel' (trim (substringFrom remainingText (comma + 1)))
                  (bubbles ++ [trim chunk])
      else
      let space := lastIndexOf remainingText [32%N] IDEAL_CHUNK in
      if space >? MIN_CHUNK then
        let chunk := substring remainingText 0 space in
        splitLoop fuel' (trim (substringFrom remainingText space))
                  (bubbles ++ [trim chunk])
      else
      let nextSpace := indexOf remainingText [32%N] IDEAL_CHUNK in
      if negb (nextSpace =? -1) then
        let chunk := substring remainingText 0 nextSpace in
        splitLoop fuel' (trim (substringFrom remainingText nextSpace))
                  (bubbles ++ [trim chunk])
      else
        splitLoop fuel' [] (bubbles ++ [remainingText])
  end.

(** [splitMessage(text)]; the loop is given one iteration per code unit of
    the text, and one more for its exit test. *)
Definition splitMessage (text : jsstring) : option (list jsstring) :=
  if Z.of_nat (length text) <? MAX_CHUNK then Some [text]
  else
    List.filter (fun b => (0 <? length b)%nat)
      <$> splitLoop (S (length text)) (trim text) [].

(** ** Invariant and guards of the turn engine *)

(** At most the trailing turn is open: every turn before it is final. *)
Definition OnlyTrailingOpen (h : list ConversationTurn) : Prop :=
  forall (i : nat) (t : ConversationTurn),
    h !! i = Some t -> (S i < length h)%nat -> isFinal t = true.

Definition AllFinal (h : list ConversationTurn) : Prop :=
  forall t, t ∈ h -> isFinal t = true.

(** The invariant over the persistent store: every persona's history. *)
Definition HistoriesSealed (w : World) : Prop :=
  forall p, p ∈ personas (app w) -> OnlyTrailingOpen (chatHistory p).

(** An append does not change speaker over an open turn: the target
    history is empty, or its trailing turn is final or has the role of the
    call. *)
Definition keepsSpeaker (w : World) (o : EngineOp) : bool :=
  match o with
  | OpAppend _ pid r _ _ =>
      match getPersonaById (app w) pid with
      | Some p =>
          match list.last (chatHistory p) with
          | Some l => isFinal l || bool_decide (role l = r)
          | None => true
          end
      | None => true
      end
  | OpFinalize => true
  end.

(** Every call of the trace keeps the speaker, in the state it is issued in. *)
Fixpoint speakerKept (ops : list EngineOp) (w : World) : Prop :=
  match ops with
  | [] => True
  | o :: ops' => keepsSpeaker w o = true /\ speakerKept ops' (step w o)
  end.

(** ** Sample stores for the scenarios *)

Definition samplePersona (i : jsstring) : Persona :=
  mkPersona i i [] [] [] [] (num_of_Z 500) None.

Definition idP1 : jsstring := js "p1".
Definition idP2 : jsstring := js "p2".

(** Two personas with empty histories, [active] selected, an empty view. *)
Definition sampleWorld (active : option jsstring) : World :=
  mkWorld (mkApp [samplePersona idP1; samplePersona idP2] active None) (mkLog []).

(** The persistent history of a persona, empty when it is unknown. *)
Definition historyOf (w : World) (pid : jsstring) : list ConversationTurn :=
  from_option chatHistory [] (getPersonaById (app w) pid).

(** The unread count of a persona, as the welcome screen reads it. *)
Definition unreadOf (w : World) (pid : jsstring) : nat :=
  from_option unread 0%nat (getPersonaById (app w) pid).

(** A text turn, then a streamed agent reply sealed by [turncomplete]. *)
Definition liveTrace : list EngineOp :=
  [OpAppend 1 idP1 user (js "Hi") (Some true);
   OpAppend 2 idP1 agent (js "Hel") (Some false);
   OpAppend 3 idP1 agent (js "lo!") None;
   OpFinalize].

(** ** Bursts of [appendTurn] calls of one role *)

(** Every call before the last passes [isFinal = false] or omits it. *)
Fixpoint openUntilLast (cs : list Chunk) : bool :=
  match cs with
  | [] => true
  | [_] => true
  | c :: cs' => negb (bool_decide (c_final c = Some true)) && openUntilLast cs'
  end.

(** The [isFinal] argument of the last call, [false] when it is omitted. *)
Definition lastFinal (cs : list Chunk) : bool :=
  from_option (fun c => default false (c_final c)) false (list.last cs).

(** The clock reading of the first call. *)
Definition firstNow (cs : list Chunk) : Z := from_option c_now 0 (head cs).

(** The chunks in call order, concatenated. *)
Definition chunksText (cs : list Chunk) : jsstring := concat (List.map c_text cs).

(** The trailing turn is open and has role [r]: the next append of role
    [r] extends it. *)
Definition extendsTrailing (r : Role) (h : list ConversationTurn) : bool :=
  match list.last h with
  | Some l => bool_decide (role l = r) && negb (isFinal l)
  | None => false
  end.

(** The burst adds one turn to the history, holding the chunks' text. *)
Definition GainsOneTurn (w : World) (pid : jsstring) (r : Role) (cs : list Chunk) : Prop :=
  exists t, historyOf (appendChunks pid r cs w) pid = historyOf w pid ++ [t]
            /\ text t = chunksText cs.

(** An agent reply under way: "Hel" has arrived and is not final. *)
Definition midReplyWorld : World :=
  appendTurn 1 idP1 agent (js "Hel") (Some false) (sampleWorld (Some idP1)).

(** ** Sample reactions *)

(** U+1F44D and U+2764, as UTF-16 code units. *)
Definition thumbsUp : jsstring := [55357; 56397]%N.
Definition heart : jsstring := [10084]%N.

(** [t] with its [reaction] set to [x]. *)
Definition with_reaction (t : ConversationTurn) (x : option jsstring) : ConversationTurn :=
  mkTurn (timestamp t) (role t) (text t) (isFinal t) x.

(** The user has said "Hi" to the first sample persona, which is active. *)
Definition greetedWorld : World :=
  appendTurn 1 idP1 user (js "Hi") (Some true) (sampleWorld (Some idP1)).

(** A turn whose reaction is set, in the history of the active persona. *)
Definition reactedWorld : World :=
  updateTurn 0 (reactionUpdate thumbsUp) greetedWorld.

(** ** Sample replies of the rapport analysis *)

(** The parse of [{"updatedRapport": 1200}]. *)
Definition reply1200 : ReplyOutcome :=
  Parsed (JObj [(js "updatedRapport", JNum (num_of_Z 1200))]).


Definition sampleExchange : list ConversationTurn :=
  [mkTurn 1 user (js "Hi") true None; mkTurn 2 agent (js "Hello!") true None].


(** ** Sample sessions *)

(** A session record over [greetedWorld], whose view holds one turn. *)
Definition sampleSession (isConnected : bool) : Session :=
  mkSession (mkWorld (app greetedWorld) (mkLog (historyOf greetedWorld idP1)))
            isConnected (Some idP1) [] 0.

(** ** What the fragments of [splitMessage] are to the text *)

Definition AllWhite (s : jsstring) : Prop := Forall (fun c => isWhite c = true) s.

(** The first code unit, if there is one, is not white space. *)
Definition headInk (s : jsstring) : bool :=
  match s with
  | c :: _ => negb (isWhite c)
  | [] => true
  end.

(** [s] has no white space at either end: [s.trim()] is [s]. *)
Definition Trimmed (s : jsstring) : Prop := trim s = s.

(** The text is the fragments in their order, with nothing but white
    space before, between and after them: joining the fragments rebuilds
    the text up to the white space at the cuts and at the two ends. *)
Inductive Rebuilds : list jsstring -> jsstring -> Prop :=
| Rebuilds_end (ws : jsstring) :
    AllWhite ws -> Rebuilds [] ws
| Rebuilds_cut (ws f : jsstring) (fs : list jsstring) (s : jsstring) :
    AllWhite ws -> Rebuilds fs s -> Rebuilds (f :: fs) (ws ++ f ++ s).

(** A reply of 148 code units: a short sentence and a long one. *)
Definition sampleReply : jsstring :=
  js "I went to the market this morning. It was crowded, loud and, frankly, a little overwhelming, so I left early and walked home along the river instead".

(** * The rest of the stores, the console handlers and the session *)

(** ** Application store: personas added and deleted ([state.ts]) *)

(** [Date.now()] in a template literal: the decimal digits of the number. *)
Definition decimal (n : N) : jsstring :=
  js (DecimalString.NilZero.string_of_uint (N.to_uint n)).

(** [name.toLowerCase().replace(/\s/g, '-')] followed by [-] and the clock;
    [lower] is the engine's [toLowerCase]. *)
Definition newPersonaId (lower : jsstring -> jsstring) (nm : jsstring) (now : N) : jsstring :=
  List.map (fun c => if isWhite c then 45%N else c) (lower nm) ++ [45%N] ++ decimal now.

(** [addPersona(personaData)]: the data of the form, with a new id and an
    empty history, goes to the end of the list. *)
Definition addPersona (lower : jsstring -> jsstring) (now : N) (personaData : Persona)
    (st : AppState) : AppState :=
  let newPersona :=
    mkPersona (newPersonaId lower (name personaData) now) (name personaData)
              (backstory personaData) (relationshipToUser personaData)
              (voice personaData) [] (rapport personaData) (unreadCount personaData) in
  set_personas st (personas st ++ [newPersona]).

(** [deletePersona(id)] *)
Definition deletePersona (pid : jsstring) (w : World) : World :=
  let state := app w in
  let newPersonas := List.filter (fun p => negb (has_id pid p)) (personas state) in
  let isActive := bool_decide (activePersonaId state = Some pid) in
  let newActivePersonaId := if isActive then None else activePersonaId state in
  let w1 := if isActive then clearTurns w else w in
  mkWorld (mkApp newPersonas newActivePersonaId (userName state)) (log w1).

(** Calls on the two stores, as the screens issue them. *)
Inductive StoreOp :=
| SAppend (now : Z) (pid : jsstring) (r : Role) (textChunk : jsstring) (fin : option bool)
| SFinalize
| SUpdate (turnIndex : Z) (u : TurnUpdates)
| SSelect (i : option jsstring)
| SDelete (pid : jsstring)
| SRapport (pid : jsstring) (r : jsnum).

Definition storeStep (w : World) (o : StoreOp) : World :=
  match o with
  | SAppend now pid r c fin => appendTurn now pid r c fin w
  | SFinalize => finalizeTurn w
  | SUpdate i u => updateTurn i u w
  | SSelect i => selectPersona i w
  | SDelete pid => deletePersona pid w
  | SRapport pid r => mkWorld (updatePersona_rapport pid r (app w)) (log w)
  end.

Definition storeRun (ops : list StoreOp) (w : World) : World := fold_left storeStep ops w.

(** The view shows the history of the active persona, when there is one. *)
Definition ViewSynced (w : World) : Prop :=
  forall pid p,
    activePersonaId (app w) = Some pid -> truthy pid = true ->
    getPersonaById (app w) pid = Some p ->
    turns (log w) = chatHistory p.

(** A first session on the sample store: open the first persona, say
    "Hi", react to it, and switch to the second persona. *)
Definition sampleOps : list StoreOp :=
  [SSelect (Some idP1);
   SAppend 1 idP1 user (js "Hi") (Some true);
   SAppend 2 idP2 agent (js "hey") (Some true);
   SUpdate 0 (reactionUpdate thumbsUp);
   SSelect (Some idP2)].

(** ASCII [toLowerCase], for the samples. *)
Definition lowerAscii (s : jsstring) : jsstring :=
  List.map (fun c => if ((65 <=? c) && (c <=? 90))%N then (c + 32)%N else c) s.

(** ** What sealing and reacting leave alone *)

(** A turn without its [isFinal] flag, and without its reaction. *)
Definition withoutFinal (t : ConversationTurn) : Z * Role * jsstring * option jsstring :=
  (timestamp t, role t, text t, reaction t).

Definition withoutReaction (t : ConversationTurn) : Z * Role * jsstring * bool :=
  (timestamp t, role t, text t, isFinal t).

(** ** Revealing a reply ([handleSendText], the loop over the fragments)

    Each fragment of [splitMessage(agentText)] is appended as a final agent
    turn of the persona the message was sent to; [clock i] is the time at
    the [i]-th append. The typing delays between the appends and the
    thinking indicator are left to the screen. *)
Definition revealChunks (clock : nat -> Z) (frags : list jsstring) : list Chunk :=
  imap (fun i f => mkChunk (clock i) f (Some true)) frags.

Definition revealReply (clock : nat -> Z) (pid : jsstring) (agentText : jsstring)
    (w : World) : World :=
  match splitMessage agentText with
  | Some chunks => appendChunks pid agent (revealChunks clock chunks) w
  | None => w
  end.

(** ** Rapport within its scale *)

(** Every persona's rapport lies in [0, 1000]. *)
Definition RapportInRange (st : AppState) : Prop :=
  forall p, p ∈ personas st ->
    num_leb (num_of_Z 0) (rapport p) = true /\ num_leb (rapport p) (num_of_Z 1000) = true.

(** ** Typing delay ([calculateTypingDelay] of StreamingConsole.tsx) *)

(** [s.split(/\s+/)]: the pieces between the runs of white space; [cur] is
    the piece being read and [inGap] tells that a run is being skipped. *)
Fixpoint splitWhiteFrom (inGap : bool) (cur : jsstring) (s : jsstring) : list jsstring :=
  match s with
  | [] => [cur]
  | c :: s' =>
      if isWhite c then
        if inGap then splitWhiteFrom true [] s'
        else cur :: splitWhiteFrom true [] s'
      else splitWhiteFrom false (cur ++ [c]) s'
  end.

Definition splitWhite (s : jsstring) : list jsstring := splitWhiteFrom false [] s.

(** [calculateTypingDelay(text)], in milliseconds. The numbers at play,
    [60 / 80], its products with a word count and with 1000, are exact as
    doubles, so the rationals compute what the code computes. *)
Definition calculateTypingDelay (text : jsstring) : jsnum :=
  let WORDS_PER_MINUTE : Qc := Qc_of_Z 80 in
  let words := length (splitWhite (trim text)) in
  if (words =? 0)%nat then num_of_Z 0 else
  let secondsPerWord : Qc := (Qc_of_Z 60 / WORDS_PER_MINUTE)%Qc in
  let delayInMs : Qc := (Qc_of_Z (Z.of_nat words) * secondsPerWord * Qc_of_Z 1000)%Qc in
  let MIN_DELAY_MS := num_of_Z 400 in
  Math_max MIN_DELAY_MS (Fin delayInMs).

(** ** Live events of the console ([StreamingConsole.tsx]) *)

(** [parts.join(sep)] *)
Fixpoint join (sep : jsstring) (parts : list jsstring) : jsstring :=
  match parts with
  | [] => []
  | [x] => x
  | x :: rest => x ++ sep ++ join sep rest
  end.

(** [serverContent.modelTurn?.parts?.map(p => p.text).filter(Boolean).join(' ') ?? '']:
    [None] is a content without model turn or parts, and a part may have
    no text. *)
Definition contentText (parts : option (list (option jsstring))) : jsstring :=
  match parts with
  | Some ps => join [32%N] (omap (fun t => match t with
                                           | Some s => if truthy s then Some s else None
                                           | None => None
                                           end) ps)
  | None => []
  end.

(** The [content] handler, bound for persona [currentPersonaId]. *)
Definition handleContent (now : Z) (currentPersonaId : jsstring)
    (parts : option (list (option jsstring))) (w : World) : World :=
  let text := contentText parts in
  if negb (truthy text) then w
  else appendTurn now currentPersonaId agent text None w.

(** The backward scan of [handleTurnComplete] over the indices below [n]. *)
Fixpoint lastUserScan (ts : list ConversationTurn) (n : nat) : Z :=
  match n with
  | O => -1
  | S i =>
      match ts !! i with
      | Some t =>
          if bool_decide (role t = user) && isFinal t then Z.of_nat i
          else lastUserScan ts i
      | None => lastUserScan ts i
      end
  end.

(** [turns.slice(start)] *)
Definition slice {A} (l : list A) (start : Z) : list A :=
  if start <? 0 then drop (Z.to_nat (Z.max (Z.of_nat (length l) + start) 0)) l
  else drop (Z.to_nat start) l.

(** A dispatched [analyzeRapport(personaId, exchange)] call. *)
Record RapportJob := mkRapportJob {
  rj_persona : jsstring;
  rj_exchange : list ConversationTurn
}.

(** The [turncomplete] handler, bound for persona [currentPersonaId]: the
    stores after it, and the analysis it dispatches. *)
Definition handleTurnComplete (currentPersonaId : jsstring) (w : World)
    : World * option RapportJob :=
  let w1 := finalizeTurn w in
  let turns := turns (log w1) in
  let lastUserTurnIndex := lastUserScan turns (length turns) in
  if negb (lastUserTurnIndex =? -1) then
    (w1, Some (mkRapportJob currentPersonaId (slice turns lastUserTurnIndex)))
  else (w1, None).

(** A final user turn: what the scan looks for. *)
Definition finalUser (t : ConversationTurn) : bool :=
  bool_decide (role t = user) && isFinal t.

(** A user turn, then an agent reply streamed as content and not yet sealed. *)
Definition streamedWorld : World :=
  handleContent 3 idP1 (Some [Some (js "Hello"); None; Some (js "there")])
    (appendTurn 2 idP1 user (js "Hi") (Some true) (sampleWorld (Some idP1))).

(** A word: at least one code unit, none of them white space. *)
Definition IsWord (s : jsstring) : Prop :=
  s <> [] /\ Forall (fun c => isWhite c = false) s.

(** ** The session: connecting, leaving, and the events in between *)

(** [connect()], up to the awaited [client.connect(config)]; what comes of
    that call arrives later as an [open] or a [close] event. The
    configuration is an object from the first render on, so the throw on a
    missing one does not arise. *)
Definition connect (s : Session) : Session :=
  let disconnects := S (clientDisconnects s) in
  let personaId := id <$> getActivePersona (app (world s)) in
  if truthy_opt personaId then
    mkSession (world s) (connected s) personaId (journalJobs s) disconnects
  else
    mkSession (world s) (connected s) (activeCallPersonaId s) (journalJobs s) disconnects.

(** [handleCallEnd()]: the recorder is stopped, then [disconnect()]. *)
Definition handleCallEnd (s : Session) : Session := disconnect s.

(** [handleBack()] of the chat screen, pressed on a render that is
    current: [persona], [turns] and [connected] are the values of the
    render the handler belongs to, which are then those of the stores and
    of the cell. *)
Definition handleBack (s : Session) : Session :=
  let persona := getActivePersona (app (world s)) in
  let viewTurns := turns (log (world s)) in
  let s1 := mkSession (selectPersona None (world s)) (connected s)
                      (activeCallPersonaId s) (journalJobs s) (clientDisconnects s) in
  if connected s then handleCallEnd s1
  else if (0 <? length viewTurns)%nat then
    match persona with
    | Some p =>
        mkSession (world s1) (connected s1) (activeCallPersonaId s1)
                  (journalJobs s1 ++ [mkJob (id p) viewTurns]) (clientDisconnects s1)
    | None => s1
    end
  else s1.

(** *** Handlers and the render they belong to *)

(** What a render reads, and the handlers bound at it keep: the
    [connected] cell, the active persona and the view. *)
Record Rendered := mkRendered {
  r_connected : bool;
  r_persona : option Persona;
  r_turns : list ConversationTurn
}.

Definition render (s : Session) : Rendered :=
  mkRendered (connected s) (getActivePersona (app (world s))) (turns (log (world s))).

(** The [close] handler bound at a render that read [seen] for
    [connected]: the test is on [seen], whatever the cell holds by now. *)
Definition onCloseBound (seen : bool) (s : Session) : Session :=
  let s1 := if seen then disconnect s else s in
  mkSession (world s1) false (activeCallPersonaId s1) (journalJobs s1) (clientDisconnects s1).

(** [handleBack()] of the render [v]: [connected], [turns] and [persona]
    are those of [v]; [selectPersona] and [disconnect] act on the stores
    as they are. *)
Definition handleBackBound (v : Rendered) (s : Session) : Session :=
  let s1 := mkSession (selectPersona None (world s)) (connected s)
                      (activeCallPersonaId s) (journalJobs s) (clientDisconnects s) in
  if r_connected v then handleCallEnd s1
  else if (0 <? length (r_turns v))%nat then
    match r_persona v with
    | Some p =>
        mkSession (world s1) (connected s1) (activeCallPersonaId s1)
                  (journalJobs s1 ++ [mkJob (id p) (r_turns v)]) (clientDisconnects s1)
    | None => s1
    end
  else s1.

(** The hook and its screen between two events: the stores, the cell and
    the reference, and what the last render read. *)
Record Hook := mkHook {
  session : Session;
  rendered : Rendered
}.

(** What can happen: the calls and events of a session, and [EvRender], a
    render with its effects, from which on the bound handlers read the
    values of that moment. *)
Inductive SessionEvent :=
| EvConnect
| EvOpen
| EvClose
| EvHangUp
| EvBack
| EvStore (o : StoreOp)
| EvRender.

Definition sessionStep (h : Hook) (e : SessionEvent) : Hook :=
  let s := session h in
  match e with
  | EvConnect => mkHook (connect s) (rendered h)
  | EvOpen => mkHook (onOpen s) (rendered h)
  | EvClose => mkHook (onCloseBound (r_connected (rendered h)) s) (rendered h)
  | EvHangUp => mkHook (handleCallEnd s) (rendered h)
  | EvBack => mkHook (handleBackBound (rendered h) s) (rendered h)
  | EvStore o =>
      mkHook (mkSession (storeStep (world s) o) (connected s) (activeCallPersonaId s)
                        (journalJobs s) (clientDisconnects s))
             (rendered h)
  | EvRender => mkHook s (render s)
  end.

Definition sessionRun (evs : list SessionEvent) (h : Hook) : Hook :=
  fold_left sessionStep evs h.

(** A call persona is set: a [disconnect] may still dispatch its journal job. *)
Definition pendingCall (s : Session) : nat :=
  if truthy_opt (activeCallPersonaId s) then 1%nat else 0%nat.

(** The events that can pay for a journal job. *)
Definition paysJob (e : SessionEvent) : nat :=
  match e with
  | EvConnect | EvBack => 1%nat
  | _ => 0%nat
  end.

Definition jobsPaid (evs : list SessionEvent) : nat :=
  foldr (fun e n => (paysJob e + n)%nat) 0%nat evs.

Definition idleSession : Session := mkSession (sampleWorld None) false None [] 0.

Definition idleHook : Hook := mkHook idleSession (render idleSession).

(** A call on the first sample persona, each event followed by a render:
    connect, open, two turns, and the close event delivered twice, then a
    hang-up. *)
Definition sampleCall : list SessionEvent :=
  [EvStore (SSelect (Some idP1)); EvRender; EvConnect; EvOpen; EvRender;
   EvStore (SAppend 1 idP1 user (js "Hi") (Some true)); EvRender;
   EvStore (SAppend 2 idP1 agent (js "Hello!") (Some true)); EvRender;
   EvClose; EvRender; EvClose; EvRender; EvHangUp].

(** A call that closes as soon as it opens: no render comes between the
    [open] and the [close] event, so the [close] handler is that of a
    render which read [connected = false]. *)
Definition hastyCall : list SessionEvent :=
  [EvStore (SSelect (Some idP1)); EvRender;
   EvStore (SAppend 1 idP1 user (js "Hi") (Some true)); EvRender;
   EvConnect; EvOpen; EvClose].

(** ** Shared memories from text ([structureMemoryText] of the live-API hook) *)

Inductive MemoryType := mFact | mEvent | mPreference | mExplicitRequest | mOther.

Record SharedMemoryItem := mkMemory {
  m_content : jsstring;
  m_timestamp : jsstring;
  m_importance : Z;
  m_type : MemoryType
}.

(** [s.split(sep)] for a separator of one code unit; [cur] is the piece
    being read. *)
Fixpoint splitOnFrom (sep : N) (cur : jsstring) (s : jsstring) : list jsstring :=
  match s with
  | [] => [cur]
  | c :: s' =>
      if (c =? sep)%N then cur :: splitOnFrom sep [] s'
      else splitOnFrom sep (cur ++ [c]) s'
  end.

(** [memoryText.split('\n')] *)
Definition splitLines (s : jsstring) : list jsstring := splitOnFrom 10%N [] s.

Definition notBlank (line : jsstring) : bool := negb (bool_decide (trim line = [])).

(** The [catch] branch: one item for each line that is not blank;
    [clock i] is [new Date().toISOString()] at the [i]-th item. *)
Definition memoryFallback (clock : nat -> jsstring) (memoryText : jsstring)
    : list SharedMemoryItem :=
  imap (fun i line => mkMemory line (clock i) 5 mOther)
       (List.filter notBlank (splitLines memoryText)).

(** [structureMemoryText(memoryText)]; [remote] is what the remote call and
    the parse of its reply come to: [Some items] when they succeed, [None]
    when either throws. *)
Definition structureMemoryText (clock : nat -> jsstring) (memoryText : jsstring)
    (remote : option (list SharedMemoryItem)) : list SharedMemoryItem :=
  if negb (truthy (trim memoryText)) then []
  else match remote with
       | Some items => items
       | None => memoryFallback clock memoryText
       end.

(** A line of the memory text area: not blank, and without a line feed. *)
Definition IsMemoryLine (line : jsstring) : Prop :=
  trim line <> [] /\ Forall (fun c => c <> 10%N) line.

(** ** The guard of the journal update ([updatePersonaJournal]) *)

(** [`${t.role === 'user' ? userName || 'User' : persona?.name || 'Agent'}: ${t.text}`] *)
Definition journalLine (uName : option jsstring) (persona : option Persona)
    (t : ConversationTurn) : jsstring :=
  (if bool_decide (role t = user)
   then (if truthy_opt uName then default [] uName else js "User")
   else (if truthy_opt (name <$> persona) then from_option name [] persona
         else js "Agent"))
  ++ js ": " ++ text t.

Definition journalTranscript (st : AppState) (pid : jsstring)
    (turnsToProcess : list ConversationTurn) : jsstring :=
  join [10%N] (List.map (journalLine (userName st) (getPersonaById st pid)) turnsToProcess).

(** [true] when [updatePersonaJournal] goes on to the remote call. *)
Definition updatePersonaJournal_proceeds (st : AppState) (pid : jsstring)
    (turnsToProcess : list ConversationTurn) : bool :=
  let persona := getPersonaById st pid in
  let transcript := journalTranscript st pid turnsToProcess in
  negb (negb (truthy transcript)
        || negb (bool_decide (is_Some persona))
        || (length (trim transcript) =? 0)%nat).

(** ** Sending a text and the reaction of the reply ([handleSendText]) *)

(** The start of [handleSendText]: the text goes in as a final user turn of
    the persona of the screen, and the index of the last turn of the view
    is kept for the reaction that may come with the reply. *)
Definition sendUserText (now : Z) (currentPersonaId : jsstring) (currentText : jsstring)
    (w : World) : World * Z :=
  let w1 := appendTurn now currentPersonaId user currentText (Some true) w in
  (w1, Z.of_nat (length (turns (log w1))) - 1).

(** [handleReaction(turnIndex, emoji)] *)
Definition handleReaction (turnIndex : Z) (emoji : jsstring) (w : World) : World :=
  updateTurn turnIndex (reactionUpdate emoji) w.

(** [if (reaction && userTurnIndex !== -1) handleReaction(userTurnIndex, reaction)] *)
Definition reactToSent (reaction : option jsstring) (userTurnIndex : Z) (w : World) : World :=
  if truthy_opt reaction && negb (userTurnIndex =? -1)
  then handleReaction userTurnIndex (default [] reaction) w
  else w.

(** The first sample persona is active and has been told "Hi"; the second
    has sent two messages meanwhile. *)
Definition twoChatsWorld : World :=
  appendTurn 3 idP2 agent (js "you there?") (Some true)
    (appendTurn 2 idP2 agent (js "hey") (Some true) greetedWorld).

(** ** Text conversations: every append is final *)

(** Every turn of every history is final. *)
Definition AllSealed (w : World) : Prop :=
  forall p, p ∈ personas (app w) -> AllFinal (chatHistory p).

(** The calls a text conversation makes: appends pass [isFinal = true] and
    turn updates carry a reaction at most. *)
Definition textModeOp (o : StoreOp) : bool :=
  match o with
  | SAppend _ _ _ _ fin => bool_decide (fin = Some true)
  | SUpdate _ u =>
      bool_decide (u_timestamp u = None) && bool_decide (u_role u = None)
      && bool_decide (u_text u = None) && bool_decide (u_isFinal u = None)
  | _ => true
  end.

(** A text exchange with the first sample persona, with a reaction. *)
Definition textOps : list StoreOp :=
  [SSelect (Some idP1);
   SAppend 1 idP1 user (js "Hi") (Some true);
   SUpdate 0 (reactionUpdate heart);
   SAppend 2 idP1 agent (js "Hello!") (Some true);
   SAppend 3 idP1 agent (js "How are you?") (Some true);
   SFinalize].

(** ** Lemmas on the application store *)

Section StoreLemmas.

Variable pid : jsstring.
Variable f : Persona -> Persona.
Hypothesis f_id : forall p, id (f p) = id p.

Lemma find_map_persona ps :
  List.find (has_id pid) (map_persona pid f ps) = f <$> List.find (has_id pid) ps.
Proof using f_id.
  induction ps as [|p ps IH]; [reflexivity|].
  cbn. destruct (has_id pid p) eqn:E.
  - unfold has_id in *. rewrite f_id, E. reflexivity.
  - rewrite E. exact IH.
Qed.

Lemma find_map_persona_ne pid' ps :
  pid' <> pid ->
  List.find (has_id pid') (map_persona pid f ps) = List.find (has_id pid') ps.
Proof using f_id.
  intros Hne. induction ps as [|p ps IH]; [reflexivity|].
  cbn. destruct (has_id pid p) eqn:E.
  - unfold has_id in *. rewrite f_id.
    apply bool_decide_eq_true in E.
    rewrite (bool_decide_eq_false_2 (id p = pid')) by congruence. exact IH.
  - destruct (has_id pid' p); [reflexivity | exact IH].
Qed.

Lemma elem_of_map_persona q ps :
  q ∈ map_persona pid f ps ->
  q ∈ ps \/ exists p, p ∈ ps /\ id p = pid /\ q = f p.
Proof.
  unfold map_persona. rewrite list_elem_of_In, in_map_iff.
  intros (p & Hq & Hin). apply list_elem_of_In in Hin.
  destruct (has_id pid p) eqn:E; subst q.
  - right. exists p. split; [exact Hin|]. split; [|reflexivity].
    unfold has_id in E. by apply bool_decide_eq_true in E.
  - left. exact Hin.
Qed.

End StoreLemmas.

Lemma find_has_id pid ps p :
  List.find (has_id pid) ps = Some p -> p ∈ ps /\ id p = pid.
Proof.
  intros H. apply find_some in H as [Hin Hid]. split.
  - by apply list_elem_of_In.
  - unfold has_id in Hid. by apply bool_decide_eq_true in Hid.
Qed.

Lemma with_chatHistory_same p : with_chatHistory p (chatHistory p) = p.
Proof. by destruct p. Qed.

(** ** Lemmas on histories *)

Lemma last_replace {A} (h : list A) (x : A) :
  h <> [] -> list.last (<[(length h - 1)%nat := x]> h) = Some x.
Proof.
  intros Hne. destruct (list.last h) as [l|] eqn:E.
  - apply last_Some in E as [h' ->].
    rewrite length_app; cbn.
    replace (length h' + 1 - 1)%nat with (length h' + 0)%nat by lia.
    rewrite insert_app_r. cbn. apply last_snoc.
  - apply last_None in E. contradiction.
Qed.

Lemma replace_last_snoc {A} (h : list A) (l x : A) :
  <[(length (h ++ [l]) - 1)%nat := x]> (h ++ [l]) = h ++ [x].
Proof.
  rewrite length_app; cbn.
  replace (length h + 1 - 1)%nat with (length h + 0)%nat by lia.
  by rewrite insert_app_r.
Qed.

Lemma OnlyTrailingOpen_snoc h t :
  OnlyTrailingOpen (h ++ [t]) <-> AllFinal h.
Proof.
  unfold OnlyTrailingOpen, AllFinal. split.
  - intros H x Hx. apply list_elem_of_lookup in Hx as [i Hi].
    apply (H i).
    + by apply lookup_app_l_Some.
    + apply lookup_lt_Some in Hi. rewrite length_app; cbn. lia.
  - intros H i x Hi Hlt. rewrite length_app in Hlt; cbn in Hlt.
    rewrite lookup_app_l in Hi by lia.
    apply H. apply list_elem_of_lookup. eauto.
Qed.

Lemma OnlyTrailingOpen_nil : OnlyTrailingOpen [].
Proof. intros i t Hi. by rewrite lookup_nil in Hi. Qed.

Lemma AllFinal_snoc h t : AllFinal h -> isFinal t = true -> AllFinal (h ++ [t]).
Proof.
  intros Hh Ht x Hx. apply elem_of_app in Hx as [Hx|Hx].
  - by apply Hh.
  - apply list_elem_of_singleton in Hx. by subst.
Qed.

(** What [appendTurn] computes, by the shape of the history. *)
Lemma appendedHistory_nil now r c fin :
  appendedHistory now r c fin [] = [mkTurn now r c (default false fin) None].
Proof. reflexivity. Qed.

Lemma appendedHistory_extend now r c fin h l :
  role l = r -> isFinal l = false ->
  appendedHistory now r c fin (h ++ [l]) =
  h ++ [mkTurn (timestamp l) (role l) (text l ++ c)
               (match fin with Some b => b | None => isFinal l end) (reaction l)].
Proof.
  intros Hr Hf. unfold appendedHistory. rewrite last_snoc.
  rewrite (bool_decide_eq_true_2 _ Hr), Hf. cbn.
  apply replace_last_snoc.
Qed.

Lemma appendedHistory_create now r c fin h l :
  role l <> r \/ isFinal l = true ->
  appendedHistory now r c fin (h ++ [l]) =
  h ++ [l; mkTurn now r c (default false fin) None].
Proof.
  intros H. unfold appendedHistory. rewrite last_snoc.
  replace (bool_decide (role l = r) && negb (isFinal l)) with false.
  - by rewrite <- app_assoc.
  - destruct H as [H|H].
    + by rewrite (bool_decide_eq_false_2 _ H).
    + rewrite H. by rewrite andb_false_r.
Qed.

Lemma OnlyTrailingOpen_replace_last h x :
  OnlyTrailingOpen h -> OnlyTrailingOpen (<[(length h - 1)%nat := x]> h).
Proof.
  intros H. destruct (list.last h) as [l|] eqn:E.
  - apply last_Some in E as [h' ->]. rewrite replace_last_snoc.
    apply OnlyTrailingOpen_snoc. by apply (OnlyTrailingOpen_snoc h' l).
  - apply last_None in E. subst h. exact H.
Qed.

Lemma appendedHistory_sealed now r c fin h :
  OnlyTrailingOpen h ->
  match list.last h with
  | Some l => isFinal l || bool_decide (role l = r) = true
  | None => True
  end ->
  OnlyTrailingOpen (appendedHistory now r c fin h).
Proof.
  intros Hh Hg. destruct (list.last h) as [l|] eqn:E.
  - apply last_Some in E as [h' ->].
    pose proof (proj1 (OnlyTrailingOpen_snoc h' l) Hh) as Hall.
    destruct (decide (role l = r)) as [Hr|Hr]; destruct (isFinal l) eqn:Hf.
    + rewrite appendedHistory_create by (by right).
      change (h' ++ [l; ?x]) with (h' ++ [l] ++ [x]). rewrite app_assoc.
      apply OnlyTrailingOpen_snoc. by apply AllFinal_snoc.
    + rewrite appendedHistory_extend by done. by apply OnlyTrailingOpen_snoc.
    + rewrite appendedHistory_create by (by right).
      change (h' ++ [l; ?x]) with (h' ++ [l] ++ [x]). rewrite app_assoc.
      apply OnlyTrailingOpen_snoc. by apply AllFinal_snoc.
    + cbn in Hg. by rewrite (bool_decide_eq_false_2 _ Hr) in Hg.
  - apply last_None in E. subst h. rewrite appendedHistory_nil.
    apply (OnlyTrailingOpen_snoc [] _). intros t Ht. by apply elem_of_nil in Ht.
Qed.

Lemma HistoriesSealed_set_history pid h (w : World) lg :
  HistoriesSealed w -> OnlyTrailingOpen h ->
  HistoriesSealed (mkWorld (updatePersonaChatHistory pid h (app w)) lg).
Proof.
  intros Hw Hh q Hq. cbn in Hq.
  apply elem_of_map_persona in Hq as [Hq | (p & Hp & _ & ->)].
  - by apply Hw.
  - exact Hh.
Qed.

Lemma HistoriesSealed_increment pid (w : World) lg :
  HistoriesSealed w ->
  HistoriesSealed (mkWorld (incrementPersonaUnreadCount pid (app w)) lg).
Proof.
  intros Hw q Hq. cbn in Hq.
  apply elem_of_map_persona in Hq as [Hq | (p & Hp & _ & ->)].
  - by apply Hw.
  - cbn. by apply Hw.
Qed.

Lemma appendTurn_sealed now pid r c fin w :
  HistoriesSealed w -> keepsSpeaker w (OpAppend now pid r c fin) = true ->
  HistoriesSealed (appendTurn now pid r c fin w).
Proof.
  intros Hw Hg. unfold appendTurn. cbn in Hg.
  destruct (getPersonaById (app w) pid) as [p|] eqn:Ep; [|exact Hw].
  apply find_has_id in Ep as [Hin _].
  assert (OnlyTrailingOpen (appendedHistory now r c fin (chatHistory p))) as Hnew.
  { apply appendedHistory_sealed; [by apply Hw|].
    destruct (list.last (chatHistory p)); [exact Hg | exact I]. }
  destruct (bool_decide (activePersonaId (app w) = Some pid)).
  - by apply HistoriesSealed_set_history.
  - destruct (bool_decide (r = agent)).
    + apply (HistoriesSealed_increment pid (mkWorld _ (log w))).
      by apply HistoriesSealed_set_history.
    + by apply HistoriesSealed_set_history.
Qed.

Lemma finalizeTurn_sealed w : HistoriesSealed w -> HistoriesSealed (finalizeTurn w).
Proof.
  intros Hw. unfold finalizeTurn.
  destruct (activePersonaId (app w)) as [pid|]; [|exact Hw].
  destruct (truthy pid); [|exact Hw]. cbn.
  destruct (getPersonaById (app w) pid) as [p|] eqn:Ep; [|exact Hw].
  apply find_has_id in Ep as [Hin _].
  destruct (length (chatHistory p) =? 0)%nat; [exact Hw|].
  destruct (list.last (chatHistory p)) as [l|]; [|exact Hw].
  destruct (isFinal l); [exact Hw|]. cbn.
  apply HistoriesSealed_set_history; [exact Hw|].
  apply OnlyTrailingOpen_replace_last. by apply Hw.
Qed.

(** C1 (as amended). From a store in which every history has only its
    trailing turn open, every trace of [appendTurn] and [finalizeTurn]
    calls in which no append changes speaker over an open trailing turn
    leads to a store with the same property: every turn before the
    trailing one is final. *)
Theorem sealed_history_preserved (ops : list EngineOp) (w : World) :
  HistoriesSealed w -> speakerKept ops w -> HistoriesSealed (run ops w).
Proof.
  revert w. induction ops as [|o ops IH]; intros w Hw Hg; [exact Hw|].
  destruct Hg as [Ho Hg]. cbn. apply IH; [|exact Hg].
  destruct o as [now pid r c fin|]; cbn.
  - by apply appendTurn_sealed.
  - by apply finalizeTurn_sealed.
Qed.

Lemma sealed_history_preserved_witness :
  HistoriesSealed (run liveTrace (sampleWorld (Some idP1))).
Proof.
  apply sealed_history_preserved.
  - intros p Hp. cbn in Hp.
    apply elem_of_cons in Hp as [->|Hp]; [apply OnlyTrailingOpen_nil|].
    apply list_elem_of_singleton in Hp as ->. apply OnlyTrailingOpen_nil.
  - vm_compute. repeat split.
Defined.

(** C1 (counterexample). A user transcription left open and followed by an
    agent transcription leaves an open turn before the trailing one. *)
Lemma open_turn_behind_trailing :
  HistoriesSealed (sampleWorld (Some idP1)) /\
  ~ HistoriesSealed
      (run [OpAppend 1 idP1 user (js "hello") (Some false);
            OpAppend 2 idP1 agent (js "hi") (Some false)]
           (sampleWorld (Some idP1))).
Proof.
  split.
  - intros p Hp. cbn in Hp.
    apply elem_of_cons in Hp as [->|Hp]; [apply OnlyTrailingOpen_nil|].
    apply list_elem_of_singleton in Hp as ->. apply OnlyTrailingOpen_nil.
  - intros H.
    specialize (H (with_chatHistory (samplePersona idP1)
                     [mkTurn 1 user (js "hello") false None;
                      mkTurn 2 agent (js "hi") false None])).
    assert (false = true) as Habs; [|discriminate].
    apply (H ltac:(vm_compute; apply list_elem_of_here) 0%nat
             (mkTurn 1 user (js "hello") false None)).
    + reflexivity.
    + cbn. lia.
Qed.

(** ** Bursts of appends *)

Lemma getPersonaById_set_history pid h st p :
  getPersonaById st pid = Some p ->
  getPersonaById (updatePersonaChatHistory pid h st) pid = Some (with_chatHistory p h).
Proof.
  unfold getPersonaById, updatePersonaChatHistory. cbn. intros H.
  rewrite find_map_persona by reflexivity. by rewrite H.
Qed.

Lemma getPersonaById_increment pid st p :
  getPersonaById st pid = Some p ->
  getPersonaById (incrementPersonaUnreadCount pid st) pid
  = Some (with_unreadCount p (unread p + 1)).
Proof.
  unfold getPersonaById, incrementPersonaUnreadCount. cbn. intros H.
  rewrite find_map_persona by reflexivity. by rewrite H.
Qed.

(** A known persona stays known, and its history is the appended one. *)
Lemma appendTurn_history now pid r c fin w p :
  getPersonaById (app w) pid = Some p ->
  exists p', getPersonaById (app (appendTurn now pid r c fin w)) pid = Some p'
             /\ chatHistory p' = appendedHistory now r c fin (chatHistory p).
Proof.
  intros Hp. unfold appendTurn. rewrite Hp.
  pose proof (getPersonaById_set_history pid
                (appendedHistory now r c fin (chatHistory p)) _ _ Hp) as Hset.
  destruct (bool_decide (activePersonaId (app w) = Some pid)).
  - eexists. split; [exact Hset | reflexivity].
  - destruct (bool_decide (r = agent)).
    + eexists. split; [apply getPersonaById_increment; exact Hset | reflexivity].
    + eexists. split; [exact Hset | reflexivity].
Qed.

Lemma getPersonaById_set_history_ne pid pid' h st :
  pid' <> pid ->
  getPersonaById (updatePersonaChatHistory pid h st) pid' = getPersonaById st pid'.
Proof.
  intros Hne. unfold getPersonaById, updatePersonaChatHistory. cbn.
  by apply find_map_persona_ne.
Qed.

Lemma getPersonaById_increment_ne pid pid' st :
  pid' <> pid ->
  getPersonaById (incrementPersonaUnreadCount pid st) pid' = getPersonaById st pid'.
Proof.
  intros Hne. unfold getPersonaById, incrementPersonaUnreadCount. cbn.
  by apply find_map_persona_ne.
Qed.

(** An append for one persona leaves every persona of another id as it is. *)
Lemma appendTurn_other_persona now pid r c fin w pid' :
  pid' <> pid ->
  getPersonaById (app (appendTurn now pid r c fin w)) pid'
  = getPersonaById (app w) pid'.
Proof.
  intros Hne. unfold appendTurn.
  destruct (getPersonaById (app w) pid) as [p|]; [|reflexivity].
  destruct (bool_decide (activePersonaId (app w) = Some pid));
    [by apply getPersonaById_set_history_ne|].
  destruct (bool_decide (r = agent)); [|by apply getPersonaById_set_history_ne].
  cbn [app]. rewrite getPersonaById_increment_ne by done.
  by apply getPersonaById_set_history_ne.
Qed.

Lemma appendChunks_history pid r cs : forall w p,
  getPersonaById (app w) pid = Some p ->
  historyOf (appendChunks pid r cs w) pid
  = fold_left (fun h c => appendedHistory (c_now c) r (c_text c) (c_final c) h)
              cs (chatHistory p).
Proof.
  induction cs as [|c cs IH]; intros w p Hp.
  - cbn. unfold historyOf. by rewrite Hp.
  - cbn. destruct (appendTurn_history (c_now c) pid r (c_text c) (c_final c) w p Hp)
      as (p' & Hp' & Hh).
    unfold appendChunks in IH. rewrite (IH _ _ Hp'). by rewrite Hh.
Qed.

Lemma fold_left_step {A B} (f : A -> B -> A) (x : B) (l : list B) (a : A) :
  fold_left f (x :: l) a = fold_left f l (f a x).
Proof. reflexivity. Qed.

Lemma burst_extends r cs : forall h l,
  cs <> [] -> openUntilLast cs = true -> role l = r -> isFinal l = false ->
  fold_left (fun h c => appendedHistory (c_now c) r (c_text c) (c_final c) h)
            cs (h ++ [l])
  = h ++ [mkTurn (timestamp l) (role l) (text l ++ chunksText cs)
                 (lastFinal cs) (reaction l)].
Proof.
  induction cs as [|c cs IH]; intros h l Hne Hopen Hr Hf; [done|].
  destruct cs as [|c' cs].
  - cbn. rewrite appendedHistory_extend by done.
    unfold chunksText, lastFinal; cbn. rewrite app_nil_r, Hf.
    by destruct (c_final c).
  - rewrite fold_left_step, appendedHistory_extend by done.
    cbn [openUntilLast] in Hopen. apply andb_true_iff in Hopen as [Hc Hopen].
    apply negb_true_iff, bool_decide_eq_false in Hc.
    rewrite IH; [|done|exact Hopen|exact Hr|].
    + cbn [timestamp role text reaction]. unfold chunksText. cbn [List.map concat].
      rewrite <- app_assoc. reflexivity.
    + cbn. rewrite Hf. destruct (c_final c) as [[]|]; congruence.
Qed.

Lemma burst_creates r cs h :
  cs <> [] -> openUntilLast cs = true -> extendsTrailing r h = false ->
  fold_left (fun h c => appendedHistory (c_now c) r (c_text c) (c_final c) h) cs h
  = h ++ [mkTurn (firstNow cs) r (chunksText cs) (lastFinal cs) None].
Proof.
  intros Hne Hopen Hext. destruct cs as [|c cs]; [done|].
  assert (appendedHistory (c_now c) r (c_text c) (c_final c) h
          = h ++ [mkTurn (c_now c) r (c_text c) (default false (c_final c)) None])
    as Hfirst.
  { unfold extendsTrailing in Hext. unfold appendedHistory.
    destruct (list.last h) as [l|]; [by rewrite Hext | reflexivity]. }
  rewrite fold_left_step, Hfirst. destruct cs as [|c' cs].
  - cbn. unfold chunksText; cbn. by rewrite app_nil_r.
  - cbn [openUntilLast] in Hopen. apply andb_true_iff in Hopen as [Hc Hopen].
    apply negb_true_iff, bool_decide_eq_false in Hc.
    rewrite burst_extends; [|done|exact Hopen|reflexivity|].
    + reflexivity.
    + cbn. destruct (c_final c) as [[]|]; [congruence|reflexivity|reflexivity].
Qed.

(** C2 (as amended). For a known persona and a non-empty burst of
    [appendTurn] calls of one role in which every call before the last
    passes [isFinal = false] or omits it: when the history is empty or its
    trailing turn is final or of another role, the history gains exactly
    one trailing turn, whose text is the concatenation of the chunks in
    call order; when the trailing turn is open and of that role, no turn is
    added and the chunks are appended to its text. An extension sets
    [isFinal] to the argument when it is given and leaves it otherwise.
    The scenario of the specification yields the two-turn history. *)
Theorem append_burst (pid : jsstring) (r : Role) (cs : list Chunk) (w : World) (p : Persona) :
  getPersonaById (app w) pid = Some p ->
  cs <> [] ->
  openUntilLast cs = true ->
  (extendsTrailing r (chatHistory p) = false ->
     historyOf (appendChunks pid r cs w) pid
     = chatHistory p ++ [mkTurn (firstNow cs) r (chunksText cs) (lastFinal cs) None])
  /\ (forall h l, chatHistory p = h ++ [l] -> role l = r -> isFinal l = false ->
        historyOf (appendChunks pid r cs w) pid
        = h ++ [mkTurn (timestamp l) r (text l ++ chunksText cs) (lastFinal cs) (reaction l)])
  /\ (forall now c fin h l, role l = r -> isFinal l = false ->
        appendedHistory now r c fin (h ++ [l])
        = h ++ [mkTurn (timestamp l) r (text l ++ c)
                       (match fin with Some b => b | None => isFinal l end)
                       (reaction l)])
  /\ historyOf
       (appendTurn 3 idP1 agent (js "lo!") (Some true)
          (appendTurn 2 idP1 agent (js "Hel") (Some false)
             (appendTurn 1 idP1 user (js "Hi") (Some true) (sampleWorld (Some idP1)))))
       idP1
     = [mkTurn 1 user (js "Hi") true None; mkTurn 2 agent (js "Hello!") true None].
Proof.
  intros Hp Hne Hopen. rewrite (appendChunks_history pid r cs w p Hp).
  split; [|split; [|split]].
  - intros Hext. by apply burst_creates.
  - intros h l -> Hr Hf. rewrite burst_extends by done. by rewrite Hr.
  - intros now c fin h l Hr Hf. rewrite appendedHistory_extend by done. by rewrite Hr.
  - reflexivity.
Qed.

Lemma append_burst_witness :
  historyOf
    (appendChunks idP1 agent
       [mkChunk 2 (js "Hel") (Some false); mkChunk 3 (js "lo") None;
        mkChunk 4 (js "!") (Some true)]
       (appendTurn 1 idP1 user (js "Hi") (Some true) (sampleWorld None)))
    idP1
  = [mkTurn 1 user (js "Hi") true None; mkTurn 2 agent (js "Hello!") true None]
  /\ historyOf
       (appendChunks idP1 agent
          [mkChunk 2 (js "lo") None; mkChunk 3 (js "!") (Some true)] midReplyWorld)
       idP1
     = [mkTurn 1 agent (js "Hello!") true None].
Proof.
  split.
  - refine (proj1 (append_burst idP1 agent _ _
                     (with_chatHistory (samplePersona idP1)
                        [mkTurn 1 user (js "Hi") true None]) _ _ _) _);
      try reflexivity.
    discriminate.
  - refine (proj1 (proj2 (append_burst idP1 agent _ midReplyWorld
                            (with_chatHistory (samplePersona idP1)
                               [mkTurn 1 agent (js "Hel") false None]) _ _ _))
              [] (mkTurn 1 agent (js "Hel") false None) _ _ _);
      try reflexivity.
    discriminate.
Defined.

(** C2 (counterexample). With an agent turn open, a further agent chunk
    adds no turn: it is merged into the open one. *)
Lemma burst_into_open_turn_adds_none :
  historyOf midReplyWorld idP1 = [mkTurn 1 agent (js "Hel") false None]
  /\ historyOf (appendChunks idP1 agent [mkChunk 2 (js "lo!") (Some true)] midReplyWorld)
               idP1
     = [mkTurn 1 agent (js "Hello!") true None]
  /\ ~ GainsOneTurn midReplyWorld idP1 agent [mkChunk 2 (js "lo!") (Some true)].
Proof.
  split; [reflexivity|]. split; [reflexivity|].
  intros (t & Hh & _). vm_compute in Hh. discriminate Hh.
Qed.

(** ** Sealing a turn *)

Lemma finalizeTurn_fixed w pid p l :
  activePersonaId (app w) = Some pid ->
  getPersonaById (app w) pid = Some p ->
  list.last (chatHistory p) = Some l -> isFinal l = true ->
  finalizeTurn w = w.
Proof.
  intros Ha Hp Hl Hf. unfold finalizeTurn. rewrite Ha.
  destruct (truthy pid); [|reflexivity]. cbn. rewrite Hp.
  destruct (length (chatHistory p) =? 0)%nat; [reflexivity|].
  by rewrite Hl, Hf.
Qed.

(** C4. [finalizeTurn] twice in a row leaves both stores as one call
    leaves them; and it changes nothing when there is no active persona,
    when the active persona has no turns, and when the trailing turn of the
    active persona is final. *)
Theorem finalizeTurn_idempotent (w : World) :
  finalizeTurn (finalizeTurn w) = finalizeTurn w
  /\ (truthy_opt (activePersonaId (app w)) = false -> finalizeTurn w = w)
  /\ (forall p, getActivePersona (app w) = Some p -> chatHistory p = [] ->
        finalizeTurn w = w)
  /\ (forall p l, getActivePersona (app w) = Some p ->
        list.last (chatHistory p) = Some l -> isFinal l = true ->
        finalizeTurn w = w).
Proof.
  split; [|split; [|split]].
  - remember (finalizeTurn w) as w1 eqn:E. unfold finalizeTurn in E.
    destruct (activePersonaId (app w)) as [pid|] eqn:Ha;
      [|subst w1; unfold finalizeTurn; by rewrite Ha].
    destruct (truthy pid) eqn:Ht; cbn [negb] in E;
      [|subst w1; unfold finalizeTurn; by rewrite Ha, Ht].
    destruct (getPersonaById (app w) pid) as [p|] eqn:Hp;
      [|subst w1; unfold finalizeTurn; by rewrite Ha, Ht, Hp].
    destruct (length (chatHistory p) =? 0)%nat eqn:Hlen;
      [subst w1; unfold finalizeTurn; by rewrite Ha, Ht, Hp, Hlen|].
    destruct (list.last (chatHistory p)) as [l|] eqn:Hl;
      [|subst w1; unfold finalizeTurn; by rewrite Ha, Ht, Hp, Hlen, Hl].
    destruct (isFinal l) eqn:Hf; cbn [negb] in E;
      [subst w1; unfold finalizeTurn; by rewrite Ha, Ht, Hp, Hlen, Hl, Hf|].
    subst w1. eapply finalizeTurn_fixed.
    + exact Ha.
    + cbn [app]. by apply getPersonaById_set_history.
    + cbn [chatHistory with_chatHistory]. apply last_replace.
      intros Hnil. by rewrite Hnil in Hl.
    + reflexivity.
  - intros Hn. unfold finalizeTurn.
    destruct (activePersonaId (app w)) as [pid|]; [|reflexivity].
    cbn in Hn. by rewrite Hn.
  - intros p Hp Hnil. unfold finalizeTurn. unfold getActivePersona in Hp.
    destruct (activePersonaId (app w)) as [pid|]; [|reflexivity].
    destruct (truthy pid); [|reflexivity]. cbn.
    unfold getPersonaById. by rewrite Hp, Hnil.
  - intros p l Hp Hl Hf. unfold getActivePersona in Hp.
    destruct (activePersonaId (app w)) as [pid|] eqn:Ha; [|discriminate].
    destruct (truthy pid); [|discriminate].
    by apply (finalizeTurn_fixed w pid p l).
Qed.

Lemma finalizeTurn_idempotent_witness :
  finalizeTurn (sampleWorld None) = sampleWorld None
  /\ finalizeTurn (sampleWorld (Some idP1)) = sampleWorld (Some idP1)
  /\ finalizeTurn (finalizeTurn midReplyWorld) = finalizeTurn midReplyWorld
  /\ finalizeTurn (appendTurn 1 idP1 user (js "Hi") (Some true) (sampleWorld (Some idP1)))
     = appendTurn 1 idP1 user (js "Hi") (Some true) (sampleWorld (Some idP1)).
Proof.
  split; [|split; [|split]].
  - apply (proj1 (proj2 (finalizeTurn_idempotent (sampleWorld None)))). reflexivity.
  - apply (proj1 (proj2 (proj2 (finalizeTurn_idempotent (sampleWorld (Some idP1)))))
             (samplePersona idP1)); reflexivity.
  - apply (proj1 (finalizeTurn_idempotent midReplyWorld)).
  - apply (proj2 (proj2 (proj2 (finalizeTurn_idempotent
                                  (appendTurn 1 idP1 user (js "Hi") (Some true)
                                     (sampleWorld (Some idP1))))))
             (with_chatHistory (samplePersona idP1)
                [mkTurn 1 user (js "Hi") true None])
             (mkTurn 1 user (js "Hi") true None)); reflexivity.
Defined.

(** ** Reactions *)

Lemma updateTurnInPersona_id i u p : id (updateTurnInPersona i u p) = id p.
Proof. unfold updateTurnInPersona. by destruct (at_index (chatHistory p) i). Qed.

Lemma at_index_insert {A} (h : list A) i t x :
  at_index h i = Some t -> at_index (<[Z.to_nat i := x]> h) i = Some x.
Proof.
  unfold at_index. destruct (0 <=? i); [|done]. intros H.
  apply list_lookup_insert_eq. by apply lookup_lt_Some in H.
Qed.

Lemma getPersonaById_updateTurn pid i u st p :
  getPersonaById st pid = Some p ->
  getPersonaById (updateTurnInHistory pid i u st) pid = Some (updateTurnInPersona i u p).
Proof.
  unfold getPersonaById, updateTurnInHistory. cbn. intros H.
  rewrite find_map_persona by apply updateTurnInPersona_id. by rewrite H.
Qed.

(** The active persona after [updateTurn], and the view synchronised with it. *)
Lemma updateTurn_active i u w pid p :
  activePersonaId (app w) = Some pid -> truthy pid = true ->
  getPersonaById (app w) pid = Some p ->
  activePersonaId (app (updateTurn i u w)) = Some pid
  /\ getPersonaById (app (updateTurn i u w)) pid = Some (updateTurnInPersona i u p)
  /\ turns (log (updateTurn i u w)) = chatHistory (updateTurnInPersona i u p).
Proof.
  intros Ha Ht Hp. unfold updateTurn. rewrite Ha, Ht. cbn [negb].
  rewrite (getPersonaById_updateTurn pid i u _ _ Hp). cbn.
  split; [exact Ha|]. split; [|reflexivity].
  by apply getPersonaById_updateTurn.
Qed.

Lemma updateTurnInPersona_out_of_range i u p :
  at_index (chatHistory p) i = None -> updateTurnInPersona i u p = p.
Proof.
  intros H. unfold updateTurnInPersona. rewrite H. apply with_chatHistory_same.
Qed.

Lemma react_once i r p t :
  at_index (chatHistory p) i = Some t -> truthy r = true ->
  chatHistory (updateTurnInPersona i (reactionUpdate r) p)
  = <[Z.to_nat i := with_reaction t (if bool_decide (reaction t = Some r)
                                     then None else Some r)]> (chatHistory p).
Proof.
  intros Hi Hr. unfold updateTurnInPersona. rewrite Hi. cbn. by rewrite Hr.
Qed.

(** From a turn that already carries [r], the same two calls clear the
    reaction and set it again. *)
Lemma react_twice_from_same i r p t :
  at_index (chatHistory p) i = Some t -> truthy r = true ->
  reaction t = Some r ->
  at_index (chatHistory (updateTurnInPersona i (reactionUpdate r)
                           (updateTurnInPersona i (reactionUpdate r) p))) i
  = Some t.
Proof.
  intros Hi Hr He.
  assert (at_index (chatHistory (updateTurnInPersona i (reactionUpdate r) p)) i
          = Some (with_reaction t None)) as H1.
  { rewrite (react_once i r p t Hi Hr), (bool_decide_eq_true_2 _ He).
    by apply (at_index_insert _ i t). }
  rewrite (react_once i r _ _ H1 Hr). cbn [reaction with_reaction].
  rewrite bool_decide_eq_false_2 by discriminate.
  rewrite (at_index_insert _ i (with_reaction t None)) by exact H1.
  destruct t; cbn in *. by subst.
Qed.

(** [updateTurn] touches the active persona only. *)
Lemma updateTurn_lookup_ne i u w pid q :
  activePersonaId (app w) = Some pid -> q <> pid ->
  getPersonaById (app (updateTurn i u w)) q = getPersonaById (app w) q.
Proof.
  intros Ha Hne. unfold updateTurn. rewrite Ha.
  destruct (truthy pid); [|reflexivity]. cbn [negb].
  assert (getPersonaById (updateTurnInHistory pid i u (app w)) q
          = getPersonaById (app w) q) as H.
  { unfold getPersonaById, updateTurnInHistory. cbn.
    apply find_map_persona_ne; [apply updateTurnInPersona_id | exact Hne]. }
  by destruct (getPersonaById (updateTurnInHistory pid i u (app w)) pid).
Qed.

(** C5. For the active persona, an index [i] in the range of its history
    and an emoji [r] (a non-empty string). When the reaction of turn [i]
    differs from [r], as when the turn has no reaction,
    [updateTurn(i, {reaction: r})] sets it to [r] and a second such call
    restores it to undefined. A call whose reaction equals the current one
    sets it to undefined, so that from a turn which already carries [r]
    the first call clears the reaction and the second sets it again: the
    two calls leave [r], not undefined. The rest of the turn is kept. With
    an index out of range, whatever the updates, every persona is found as
    before and the active persona stays; the view is still written, with
    the history of the active persona, which changes nothing when the view
    showed that history already. In range or not, the view shows the
    history of the active persona after the call. *)
Theorem reaction_toggle (w : World) (pid : jsstring) (p : Persona) (i : Z) (r : jsstring) :
  activePersonaId (app w) = Some pid ->
  truthy pid = true ->
  getPersonaById (app w) pid = Some p ->
  truthy r = true ->
  let once := updateTurn i (reactionUpdate r) w in
  let twice := updateTurn i (reactionUpdate r) once in
  (forall t, at_index (chatHistory p) i = Some t -> reaction t <> Some r ->
     at_index (historyOf once pid) i = Some (with_reaction t (Some r))
     /\ at_index (historyOf twice pid) i = Some (with_reaction t None))
  /\ (forall t, at_index (chatHistory p) i = Some t -> reaction t = Some r ->
        at_index (historyOf once pid) i = Some (with_reaction t None)
        /\ at_index (historyOf twice pid) i = Some t)
  /\ (at_index (chatHistory p) i = None ->
        forall u,
          (forall q, getPersonaById (app (updateTurn i u w)) q = getPersonaById (app w) q)
          /\ activePersonaId (app (updateTurn i u w)) = Some pid
          /\ turns (log (updateTurn i u w)) = chatHistory p
          /\ (turns (log w) = chatHistory p -> log (updateTurn i u w) = log w))
  /\ (forall u, turns (log (updateTurn i u w)) = historyOf (updateTurn i u w) pid).
Proof.
  intros Ha Ht Hp Hr once twice.
  destruct (updateTurn_active i (reactionUpdate r) w pid p Ha Ht Hp) as (Ha1 & Hp1 & _).
  destruct (updateTurn_active i (reactionUpdate r) once pid _ Ha1 Ht Hp1) as (_ & Hp2 & _).
  split; [|split; [|split]].
  - intros t Hi Hne.
    assert (at_index (historyOf once pid) i = Some (with_reaction t (Some r))) as H1.
    { unfold historyOf. fold once in Hp1. rewrite Hp1. cbn [from_option].
      rewrite (react_once i r p t Hi Hr), (bool_decide_eq_false_2 _ Hne).
      by apply (at_index_insert _ i t). }
    split; [exact H1|].
    unfold historyOf in *. fold once twice in Hp1, Hp2. rewrite Hp2.
    rewrite Hp1 in H1. cbn [from_option] in *.
    rewrite (react_once i r _ _ H1 Hr). cbn [reaction with_reaction].
    rewrite bool_decide_eq_true_2 by reflexivity.
    by apply (at_index_insert _ i (with_reaction t (Some r))).
  - intros t Hi He. split.
    + unfold historyOf. fold once in Hp1. rewrite Hp1. cbn [from_option].
      rewrite (react_once i r p t Hi Hr), (bool_decide_eq_true_2 _ He).
      by apply (at_index_insert _ i t).
    + unfold historyOf. fold once twice in Hp2. rewrite Hp2. cbn [from_option].
      by apply react_twice_from_same.
  - intros Hout u.
    destruct (updateTurn_active i u w pid p Ha Ht Hp) as (Hau & Hpu & Hvu).
    rewrite (updateTurnInPersona_out_of_range i u p Hout) in Hpu, Hvu.
    split; [|split; [exact Hau|split; [exact Hvu|]]].
    + intros q. destruct (decide (q = pid)) as [->|Hne].
      * by rewrite Hpu, Hp.
      * by apply (updateTurn_lookup_ne i u w pid q).
    + intros Hv. destruct (log (updateTurn i u w)) as [ts] eqn:E1.
      destruct (log w) as [ts0] eqn:E0. cbn in *. congruence.
  - intros u. destruct (updateTurn_active i u w pid p Ha Ht Hp) as (_ & Hpu & Hvu).
    unfold historyOf. by rewrite Hpu.
Qed.

Lemma reaction_toggle_witness :
  let once := updateTurn 0 (reactionUpdate thumbsUp) greetedWorld in
  let twice := updateTurn 0 (reactionUpdate thumbsUp) once in
  (at_index (historyOf once idP1) 0 = Some (mkTurn 1 user (js "Hi") true (Some thumbsUp))
   /\ at_index (historyOf twice idP1) 0 = Some (mkTurn 1 user (js "Hi") true None))
  /\ (at_index (historyOf (updateTurn 0 (reactionUpdate thumbsUp) once) idP1) 0
      = Some (mkTurn 1 user (js "Hi") true None)
      /\ at_index (historyOf (updateTurn 0 (reactionUpdate thumbsUp)
                                (updateTurn 0 (reactionUpdate thumbsUp) once)) idP1) 0
         = Some (mkTurn 1 user (js "Hi") true (Some thumbsUp)))
  /\ updateTurn 7 (reactionUpdate heart) greetedWorld = greetedWorld
  /\ turns (log (updateTurn 7 (reactionUpdate heart) (clearTurns greetedWorld)))
     = [mkTurn 1 user (js "Hi") true None].
Proof.
  pose (p := with_chatHistory (samplePersona idP1) [mkTurn 1 user (js "Hi") true None]).
  pose (p' := with_chatHistory (samplePersona idP1)
                [mkTurn 1 user (js "Hi") true (Some thumbsUp)]).
  intros once twice. split; [|split; [|split]].
  - apply (proj1 (reaction_toggle greetedWorld idP1 p 0 thumbsUp
                    eq_refl eq_refl eq_refl eq_refl)
             (mkTurn 1 user (js "Hi") true None)); [reflexivity | discriminate].
  - apply (proj1 (proj2 (reaction_toggle once idP1 p' 0 thumbsUp
                           eq_refl eq_refl eq_refl eq_refl))
             (mkTurn 1 user (js "Hi") true (Some thumbsUp))); reflexivity.
  - reflexivity.
  - apply (proj1 (proj2 (proj2 (reaction_toggle (clearTurns greetedWorld) idP1 p 7 heart
                                  eq_refl eq_refl eq_refl eq_refl))) eq_refl
             (reactionUpdate heart)).
Defined.

(** C5 (counterexample). On a turn that already carries the reaction, two
    calls in succession leave it in place: the first call clears it and
    the second sets it again, so the reaction is not undefined after them. *)
Lemma reaction_back_after_two_calls :
  at_index (historyOf reactedWorld idP1) 0
  = Some (mkTurn 1 user (js "Hi") true (Some thumbsUp))
  /\ at_index (historyOf (updateTurn 0 (reactionUpdate thumbsUp) reactedWorld) idP1) 0
     = Some (mkTurn 1 user (js "Hi") true None)
  /\ at_index (historyOf (updateTurn 0 (reactionUpdate thumbsUp)
                            (updateTurn 0 (reactionUpdate thumbsUp) reactedWorld)) idP1) 0
     = Some (mkTurn 1 user (js "Hi") true (Some thumbsUp))
  /\ (reaction <$> at_index (historyOf (updateTurn 0 (reactionUpdate thumbsUp)
                                          (updateTurn 0 (reactionUpdate thumbsUp)
                                             reactedWorld)) idP1) 0)
     <> Some None.
Proof. repeat split. discriminate. Qed.

(** ** Unread counts *)

Lemma getPersonaById_clear pid st p :
  getPersonaById st pid = Some p ->
  getPersonaById (clearPersonaUnreadCount pid st) pid = Some (with_unreadCount p 0).
Proof.
  unfold getPersonaById, clearPersonaUnreadCount. cbn. intros H.
  rewrite find_map_persona by reflexivity. by rewrite H.
Qed.

(** C6. For a known persona that is not the active one, [appendTurn] adds
    one to its unread count when the role is agent and leaves the count as
    it is for the roles user and system. Selecting a persona (ids are
    non-empty strings) makes it the active one with an unread count of
    zero. In the scenario, an agent turn for the inactive second persona
    brings its count to 1 and selecting it brings the count back to 0. *)
Theorem unread_count (now : Z) (pid : jsstring) (r : Role) (c : jsstring)
    (fin : option bool) (w : World) (p : Persona) :
  getPersonaById (app w) pid = Some p ->
  (activePersonaId (app w) <> Some pid ->
     exists p', getPersonaById (app (appendTurn now pid r c fin w)) pid = Some p'
                /\ unread p' = (unread p + (if bool_decide (r = agent) then 1 else 0))%nat)
  /\ (truthy pid = true ->
        activePersonaId (app (selectPersona (Some pid) w)) = Some pid
        /\ getPersonaById (app (selectPersona (Some pid) w)) pid
           = Some (with_unreadCount p 0))
  /\ unreadOf (appendTurn 1 idP2 agent (js "hey") (Some true) (sampleWorld (Some idP1))) idP2
     = 1%nat
  /\ unreadOf (selectPersona (Some idP2)
                 (appendTurn 1 idP2 agent (js "hey") (Some true)
                    (sampleWorld (Some idP1)))) idP2
     = 0%nat.
Proof.
  intros Hp. split; [|split; [|split]].
  - intros Hna. unfold appendTurn. rewrite Hp.
    rewrite (bool_decide_eq_false_2 _ Hna).
    pose proof (getPersonaById_set_history pid
                  (appendedHistory now r c fin (chatHistory p)) _ _ Hp) as Hset.
    destruct (bool_decide (r = agent)).
    + eexists. split; [apply getPersonaById_increment; exact Hset|].
      reflexivity.
    + eexists. split; [exact Hset|]. cbn. unfold unread. lia.
  - intros Ht. unfold selectPersona. rewrite Ht. cbn. split; [reflexivity|].
    by apply getPersonaById_clear.
  - reflexivity.
  - reflexivity.
Qed.

Lemma unread_count_witness :
  (exists p', getPersonaById
                (app (appendTurn 5 idP2 user (js "note") (Some true)
                        (sampleWorld (Some idP1)))) idP2 = Some p'
              /\ unread p' = 0%nat)
  /\ getPersonaById (app (selectPersona (Some idP2) (sampleWorld (Some idP1)))) idP2
     = Some (with_unreadCount (samplePersona idP2) 0).
Proof.
  split.
  - apply (proj1 (unread_count 5 idP2 user (js "note") (Some true)
                    (sampleWorld (Some idP1)) (samplePersona idP2) eq_refl)).
    discriminate.
  - apply (proj1 (proj2 (unread_count 5 idP2 user (js "note") (Some true)
                           (sampleWorld (Some idP1)) (samplePersona idP2) eq_refl))).
    reflexivity.
Defined.

(** ** Timestamps *)

(** C9 (as amended). The timestamp of a turn is the clock reading at its
    creation: an [appendTurn] call that creates the trailing turn stamps it
    with the current time, and a call that extends an open trailing turn
    leaves the timestamp of that turn as it was. *)
Theorem timestamp_is_creation_time (now : Z) (pid : jsstring) (r : Role)
    (c : jsstring) (fin : option bool) (w : World) (p : Persona) :
  getPersonaById (app w) pid = Some p ->
  (forall l, list.last (chatHistory p) = Some l ->
     extendsTrailing r (chatHistory p) = true ->
     timestamp <$> list.last (historyOf (appendTurn now pid r c fin w) pid)
     = Some (timestamp l))
  /\ (extendsTrailing r (chatHistory p) = false ->
        timestamp <$> list.last (historyOf (appendTurn now pid r c fin w) pid)
        = Some now).
Proof.
  intros Hp.
  destruct (appendTurn_history now pid r c fin w p Hp) as (p' & Hp' & Hh).
  unfold historyOf. rewrite Hp'. cbn [from_option]. rewrite Hh. split.
  - intros l Hl Hext. unfold extendsTrailing in Hext. rewrite Hl in Hext.
    apply andb_true_iff in Hext as [Hr Hf].
    apply bool_decide_eq_true in Hr. apply negb_true_iff in Hf.
    apply last_Some in Hl as [h ->].
    rewrite appendedHistory_extend by done. by rewrite last_snoc.
  - intros Hext. unfold extendsTrailing in Hext. unfold appendedHistory.
    destruct (list.last (chatHistory p)) as [l|]; [rewrite Hext|];
      by rewrite last_snoc.
Qed.

Lemma timestamp_is_creation_time_witness :
  timestamp <$> list.last (historyOf (appendTurn 2 idP1 agent (js "lo!") (Some true)
                                        midReplyWorld) idP1) = Some 1
  /\ timestamp <$> list.last (historyOf (appendTurn 2 idP1 user (js "ok") (Some true)
                                           midReplyWorld) idP1) = Some 2.
Proof.
  pose (p := with_chatHistory (samplePersona idP1) [mkTurn 1 agent (js "Hel") false None]).
  split.
  - apply (proj1 (timestamp_is_creation_time 2 idP1 agent (js "lo!") (Some true)
                    midReplyWorld p eq_refl)
             (mkTurn 1 agent (js "Hel") false None)); reflexivity.
  - apply (proj2 (timestamp_is_creation_time 2 idP1 user (js "ok") (Some true)
                    midReplyWorld p eq_refl)); reflexivity.
Defined.

(** C9 (counterexample). A turn created at time 1 and extended at time 2
    carries the timestamp 1, not the time of its extension. *)
Lemma extension_does_not_restamp :
  historyOf (appendTurn 2 idP1 agent (js "lo!") (Some true) midReplyWorld) idP1
  = [mkTurn 1 agent (js "Hello!") true None]
  /\ timestamp <$> list.last (historyOf (appendTurn 2 idP1 agent (js "lo!") (Some true)
                                           midReplyWorld) idP1) <> Some 2.
Proof. split; [reflexivity | discriminate]. Qed.

(** ** Updates without a reaction *)

(** C10. For an index in range and an updates object without a reaction
    (the key absent or undefined), [updateTurnInHistory] leaves the
    targeted turn of the persona with no reaction, whatever reaction it
    had; the other fields are the updated ones. *)
Theorem update_without_reaction_clears (st : AppState) (pid : jsstring)
    (p : Persona) (i : Z) (t : ConversationTurn) (u : TurnUpdates) :
  getPersonaById st pid = Some p ->
  at_index (chatHistory p) i = Some t ->
  u_reaction u = None ->
  exists p' t',
    getPersonaById (updateTurnInHistory pid i u st) pid = Some p'
    /\ at_index (chatHistory p') i = Some t'
    /\ reaction t' = None
    /\ t' = applyUpdates t u None.
Proof.
  intros Hp Hi Hu.
  exists (updateTurnInPersona i u p), (applyUpdates t u None).
  split; [by apply getPersonaById_updateTurn|].
  split; [|split; reflexivity].
  unfold updateTurnInPersona. rewrite Hi, Hu. cbn.
  by apply (at_index_insert _ i t).
Qed.

Lemma update_without_reaction_clears_witness :
  exists p' t',
    getPersonaById (updateTurnInHistory idP1 0 noUpdates (app reactedWorld)) idP1 = Some p'
    /\ at_index (chatHistory p') 0 = Some t'
    /\ reaction t' = None
    /\ t' = applyUpdates (mkTurn 1 user (js "Hi") true (Some thumbsUp)) noUpdates None.
Proof.
  apply (update_without_reaction_clears (app reactedWorld) idP1
           (with_chatHistory (samplePersona idP1)
              [mkTurn 1 user (js "Hi") true (Some thumbsUp)])
           0 (mkTurn 1 user (js "Hi") true (Some thumbsUp)) noUpdates);
    reflexivity.
Defined.

(** ** Rapport analysis *)

Lemma Qc_leb_total (x y : Qc) :
  bool_decide (x ≤ y)%Qc = false -> bool_decide (y ≤ x)%Qc = true.
Proof.
  intros H. apply bool_decide_eq_false in H. apply bool_decide_eq_true.
  apply Qclt_le_weak. by apply Qcnot_le_lt.
Qed.

Lemma clampRapport_bounds n :
  num_leb (num_of_Z 0) (clampRapport n) = true
  /\ num_leb (clampRapport n) (num_of_Z 1000) = true.
Proof.
  assert (bool_decide (Qc_of_Z 0 ≤ Qc_of_Z 1000)%Qc = true) as H01 by reflexivity.
  assert (forall x, bool_decide (x ≤ x)%Qc = true) as Hrefl
    by (intros x; apply bool_decide_eq_true, Qcle_refl).
  unfold clampRapport, Math_max, Math_min, num_of_Z.
  destruct n as [q| |]; cbn.
  - destruct (bool_decide (Qc_of_Z 1000 ≤ q)%Qc) eqn:E1; cbn.
    + rewrite H01. cbn. by rewrite H01, Hrefl.
    + destruct (bool_decide (Qc_of_Z 0 ≤ q)%Qc) eqn:E2; cbn.
      * rewrite E2. split; [reflexivity|]. by apply Qc_leb_total.
      * by rewrite Hrefl, H01.
  - rewrite H01. cbn. by rewrite H01, Hrefl.
  - by rewrite Hrefl, H01.
Qed.


Lemma getPersonaById_rapport pid r st p :
  getPersonaById st pid = Some p ->
  getPersonaById (updatePersona_rapport pid r st) pid = Some (with_rapport p r).
Proof.
  unfold getPersonaById, updatePersona_rapport. cbn. intros H.
  rewrite find_map_persona by reflexivity. by rewrite H.
Qed.



(** ** Session adapter *)

(** C8. A [close] event that finds the session not connected dispatches no
    journal update and does not clear the view: it leaves the whole
    session record as it is. The side effects of [disconnect] run from
    [close] only in a connected session: if [close] dispatches a job or
    changes the stores, the session was connected, and then [close] does
    what [disconnect] does. *)
Theorem idle_close_is_noop (s : Session) :
  (connected s = false ->
     journalJobs (onClose s) = journalJobs s
     /\ world (onClose s) = world s
     /\ onClose s = s)
  /\ (journalJobs (onClose s) <> journalJobs s \/ world (onClose s) <> world s ->
        connected s = true)
  /\ (connected s = true -> onClose s = disconnect s).
Proof.
  assert (connected s = false -> onClose s = s) as Hidle.
  { intros Hc. unfold onClose. rewrite Hc. destruct s; cbn in *. by subst. }
  split; [|split].
  - intros Hc. by rewrite (Hidle Hc).
  - intros Hchg. destruct (connected s) eqn:Hc; [reflexivity|].
    rewrite (Hidle eq_refl) in Hchg. by destruct Hchg.
  - intros Hc. unfold onClose. rewrite Hc. unfold disconnect.
    destruct (activeCallPersonaId s) as [pid|]; [|reflexivity].
    destruct (truthy pid); [|reflexivity].
    by destruct (0 <? length (turns (log (world s))))%nat.
Qed.

Lemma idle_close_is_noop_witness :
  (journalJobs (onClose (sampleSession false)) = []
   /\ world (onClose (sampleSession false)) = world (sampleSession false)
   /\ onClose (sampleSession false) = sampleSession false)
  /\ connected (sampleSession true) = true
  /\ onClose (sampleSession true) = disconnect (sampleSession true)
  /\ journalJobs (onClose (sampleSession true))
     = [mkJob idP1 [mkTurn 1 user (js "Hi") true None]].
Proof.
  split; [|split; [|split]].
  - apply (proj1 (idle_close_is_noop (sampleSession false))). reflexivity.
  - apply (proj1 (proj2 (idle_close_is_noop (sampleSession true)))).
    left. discriminate.
  - apply (proj2 (proj2 (idle_close_is_noop (sampleSession true)))). reflexivity.
  - reflexivity.
Defined.

Lemma disconnect_clears_call s : activeCallPersonaId (disconnect s) = None.
Proof.
  unfold disconnect. destruct (activeCallPersonaId s) as [pid|]; [|reflexivity].
  destruct (truthy pid); [|reflexivity].
  by destruct (0 <? length (turns (log (world s))))%nat.
Qed.

(** A [disconnect] clears the persona of the call: a second one, as when
    the [close] event of a hang-up still finds the handler of the connected
    session, dispatches nothing more and leaves the stores alone. *)
Lemma disconnect_dispatches_once s :
  journalJobs (disconnect (disconnect s)) = journalJobs (disconnect s)
  /\ world (disconnect (disconnect s)) = world (disconnect s).
Proof.
  pose proof (disconnect_clears_call s) as Hc.
  remember (disconnect s) as s1 eqn:E. clear E.
  unfold disconnect. rewrite Hc. by split.
Qed.

(** ** Message pacing: the string primitives on samples *)

Example trim_sample : trim (js "  a b  ") = js "a b".
Proof. reflexivity. Qed.

Example trim_line_ends : trim ([10; 9; 160] ++ js "x" ++ [8232; 13])%N = js "x".
Proof. reflexivity. Qed.

Example lastIndexOf_sample :
  lastIndexOf (js "a.b.c") [46%N] 3 = 3
  /\ lastIndexOf (js "a.b.c") [46%N] 2 = 1
  /\ lastIndexOf (js "a.b.c") [46%N] 0 = -1
  /\ lastIndexOf (js "a.b.c") [46%N] 99 = 3
  /\ lastIndexOf (js "wait... what") [46; 46; 46]%N 140 = 4.
Proof. repeat split. Qed.

Example indexOf_sample :
  indexOf (js "a b c") [32%N] 0 = 1
  /\ indexOf (js "a b c") [32%N] 2 = 3
  /\ indexOf (js "a b c") [32%N] 4 = -1
  /\ indexOf (js "a b c") [32%N] 99 = -1.
Proof. repeat split. Qed.

Example substring_sample :
  substring (js "hello") 0 2 = js "he"
  /\ substringFrom (js "hello") 2 = js "llo"
  /\ substring (js "hello") 3 99 = js "lo"
  /\ substringFrom (js "hello") 9 = [].
Proof. repeat split. Qed.

(** ** Message pacing: strings *)

Lemma trimStart_split s : exists a, s = a ++ trimStart s /\ AllWhite a.
Proof.
  induction s as [|c s (a & Hs & Ha)];
    [exists []; split; [reflexivity | constructor]|].
  cbn. destruct (isWhite c) eqn:E.
  - exists (c :: a). split; [cbn; by rewrite <- Hs|]. by constructor.
  - exists []. split; [reflexivity | constructor].
Qed.

Lemma trimEnd_split s : exists b, s = trimEnd s ++ b /\ AllWhite b.
Proof.
  destruct (trimStart_split (rev s)) as (a & Hs & Ha).
  exists (rev a). split; [|by apply Forall_rev].
  unfold trimEnd. rewrite <- rev_app_distr, <- Hs. by rewrite rev_involutive.
Qed.

Lemma trim_split s : exists a b, s = a ++ trim s ++ b /\ AllWhite a /\ AllWhite b.
Proof.
  destruct (trimStart_split s) as (a & Hs & Ha).
  destruct (trimEnd_split (trimStart s)) as (b & Ht & Hb).
  exists a, b. unfold trim. by rewrite <- Ht.
Qed.

Lemma length_trim s : (length (trim s) <= length s)%nat.
Proof.
  destruct (trim_split s) as (a & b & Hs & _).
  rewrite Hs at 2. rewrite !length_app. lia.
Qed.

Lemma headInk_trimStart s : headInk (trimStart s) = true.
Proof.
  induction s as [|c s IH]; [reflexivity|].
  cbn. destruct (isWhite c) eqn:E; [exact IH|]. cbn. by rewrite E.
Qed.

Lemma trimStart_ink s : headInk s = true -> trimStart s = s.
Proof.
  destruct s as [|c s]; [reflexivity|]. cbn. intros H.
  apply negb_true_iff in H. by rewrite H.
Qed.

Lemma trimEnd_ink s : headInk (rev s) = true -> trimEnd s = s.
Proof.
  intros H. unfold trimEnd. rewrite (trimStart_ink _ H). apply rev_involutive.
Qed.

Lemma headInk_rev_trimEnd s : headInk (rev (trimEnd s)) = true.
Proof. unfold trimEnd. rewrite rev_involutive. apply headInk_trimStart. Qed.

Lemma headInk_trimEnd s : headInk s = true -> headInk (trimEnd s) = true.
Proof.
  intros H. destruct (trimEnd_split s) as (b & Hs & _).
  destruct (trimEnd s) as [|c t]; [reflexivity|].
  rewrite Hs in H. exact H.
Qed.

Lemma trim_Trimmed s : Trimmed (trim s).
Proof.
  unfold Trimmed, trim at 1.
  assert (headInk (trim s) = true) as H1
    by apply headInk_trimEnd, headInk_trimStart.
  rewrite (trimStart_ink _ H1). apply trimEnd_ink.
  unfold trim. apply headInk_rev_trimEnd.
Qed.

Lemma Trimmed_nil : Trimmed [].
Proof. reflexivity. Qed.

(** [substring] at a cut: the chunk and the rest make up the text. *)
Lemma substring_take s k :
  0 <= k -> substring s 0 k = take (Z.to_nat k) s.
Proof.
  intros Hk. unfold substring.
  set (len := Z.of_nat (length s)).
  replace (Z.to_nat (Z.min (Z.min (Z.max 0 0) len) (Z.min (Z.max k 0) len)))
    with 0%nat by lia.
  replace (Z.to_nat (Z.max (Z.min (Z.max 0 0) len) (Z.min (Z.max k 0) len)))
    with (Z.to_nat (Z.min k len)) by lia.
  rewrite drop_0, Nat.sub_0_r.
  destruct (Z.le_gt_cases k len) as [Hle|Hgt].
  - by rewrite Z.min_l.
  - rewrite Z.min_r by lia. rewrite !take_ge; [reflexivity | lia | lia].
Qed.

Lemma substringFrom_drop s k :
  0 <= k -> substringFrom s k = drop (Z.to_nat k) s.
Proof.
  intros Hk. unfold substringFrom, substring.
  set (len := Z.of_nat (length s)).
  replace (Z.to_nat (Z.min (Z.min (Z.max k 0) len) (Z.min (Z.max len 0) len)))
    with (Z.to_nat (Z.min k len)) by lia.
  replace (Z.to_nat (Z.max (Z.min (Z.max k 0) len) (Z.min (Z.max len 0) len)))
    with (length s) by lia.
  rewrite take_ge by (rewrite length_drop; lia).
  destruct (Z.le_gt_cases k len) as [Hle|Hgt].
  - by rewrite Z.min_l.
  - rewrite Z.min_r by lia. rewrite !drop_ge; [reflexivity | lia | lia].
Qed.

Lemma substring_cut s k :
  0 <= k -> substring s 0 k ++ substringFrom s k = s.
Proof.
  intros Hk. rewrite substring_take, substringFrom_drop by exact Hk.
  apply take_drop.
Qed.

Lemma length_substringFrom s k :
  1 <= k -> s <> [] -> (length (substringFrom s k) < length s)%nat.
Proof.
  intros Hk Hs.
  assert (0 < length s)%nat by (destruct s; [done | cbn; lia]).
  rewrite substringFrom_drop, length_drop by lia. lia.
Qed.

(** ** Message pacing: rebuilding the text *)

Lemma AllWhite_app a b : AllWhite a -> AllWhite b -> AllWhite (a ++ b).
Proof. intros Ha Hb. apply Forall_app. by split. Qed.

Lemma Rebuilds_pad_left fs s w : Rebuilds fs s -> AllWhite w -> Rebuilds fs (w ++ s).
Proof.
  intros H Hw. destruct H as [ws Hws | ws f fs s Hws H].
  - constructor. by apply AllWhite_app.
  - rewrite app_assoc. constructor; [by apply AllWhite_app | exact H].
Qed.

Lemma Rebuilds_pad_right fs s w : Rebuilds fs s -> AllWhite w -> Rebuilds fs (s ++ w).
Proof.
  intros H Hw. induction H as [ws Hws | ws f fs s Hws H IH].
  - constructor. by apply AllWhite_app.
  - rewrite <- !app_assoc. by constructor.
Qed.

Lemma Rebuilds_trim fs s : Rebuilds fs (trim s) -> Rebuilds fs s.
Proof.
  intros H. destruct (trim_split s) as (a & b & Hs & Ha & Hb).
  rewrite Hs. apply Rebuilds_pad_left; [|exact Ha]. by apply Rebuilds_pad_right.
Qed.

Lemma Rebuilds_one f : Rebuilds [f] f.
Proof.
  rewrite <- (app_nil_r f) at 2. apply (Rebuilds_cut [] f [] []);
    [constructor | constructor; constructor].
Qed.

(** Cutting [s] at [k]: the trimmed chunk, then the fragments of the
    trimmed rest. *)
Lemma Rebuilds_at_cut s k fs :
  0 <= k -> Rebuilds fs (trim (substringFrom s k)) ->
  Rebuilds (trim (substring s 0 k) :: fs) s.
Proof.
  intros Hk H. rewrite <- (substring_cut s k Hk) at 2.
  destruct (trim_split (substring s 0 k)) as (a & b & Hc & Ha & Hb).
  rewrite Hc at 2. rewrite <- !app_assoc. constructor; [exact Ha|].
  apply Rebuilds_pad_left; [|exact Hb]. by apply Rebuilds_trim.
Qed.

Lemma Rebuilds_filter fs s :
  Rebuilds fs s -> Rebuilds (List.filter (fun b => (0 <? length b)%nat) fs) s.
Proof.
  intros H. induction H as [ws Hws | ws f fs s Hws H IH].
  - by constructor.
  - destruct f as [|c f].
    + apply Rebuilds_pad_left; [exact IH | exact Hws].
    + change (List.filter ?g ((c :: f) :: fs)) with ((c :: f) :: List.filter g fs).
      by constructor.
Qed.

(** ** Message pacing: the loop *)

Lemma sentenceSplit_range s slicePoint :
  sentenceSplit s slicePoint = -1 \/ MIN_CHUNK < sentenceSplit s slicePoint.
Proof.
  unfold sentenceSplit, sentenceEndChars. cbn [fold_left].
  repeat match goal with
         | |- context [if ?b then _ else _] => destruct b eqn:?
         end; lia.
Qed.

Lemma indexFrom_range needle s : forall k,
  indexFrom needle s k = -1 \/ Z.of_nat k <= indexFrom needle s k.
Proof.
  induction s as [|c s IH]; intros k; cbn.
  - destruct (startsWith needle []); lia.
  - destruct (startsWith needle (c :: s)); [lia|].
    destruct (IH (S k)) as [H|H]; lia.
Qed.

Lemma indexOf_range s needle position :
  indexOf s needle position = -1
  \/ Z.min (Z.max position 0) (Z.of_nat (length s)) <= indexOf s needle position.
Proof.
  unfold indexOf.
  destruct (indexFrom_range needle
              (drop (Z.to_nat (Z.min (Z.max position 0) (Z.of_nat (length s)))) s)
              (Z.to_nat (Z.min (Z.max position 0) (Z.of_nat (length s)))))
    as [H|H]; lia.
Qed.

Section Loop.

Variable fuel : nat.

(** The loop with [fuel] iterations left ends on every trimmed text shorter
    than [fuel], with trimmed fragments that rebuild the text. *)
Hypothesis loop_ends : forall rem bubbles,
  Trimmed rem -> (length rem < fuel)%nat ->
  exists tail, splitLoop fuel rem bubbles = Some (bubbles ++ tail)
               /\ Forall Trimmed tail /\ Rebuilds tail rem.

Lemma cut_step rem bubbles k :
  1 <= k -> rem <> [] -> (length rem <= fuel)%nat ->
  exists tail,
    splitLoop fuel (trim (substringFrom rem k)) (bubbles ++ [trim (substring rem 0 k)])
    = Some (bubbles ++ tail)
    /\ Forall Trimmed tail /\ Rebuilds tail rem.
Proof using loop_ends.
  intros Hk Hne Hlen.
  destruct (loop_ends (trim (substringFrom rem k))
              (bubbles ++ [trim (substring rem 0 k)])) as (tail & Heq & Ht & Hr).
  - apply trim_Trimmed.
  - pose proof (length_trim (substringFrom rem k)).
    pose proof (length_substringFrom rem k Hk Hne). lia.
  - exists (trim (substring rem 0 k) :: tail). split; [|split].
    + rewrite Heq, <- app_assoc. reflexivity.
    + constructor; [apply trim_Trimmed | exact Ht].
    + apply Rebuilds_at_cut; [lia | exact Hr].
Qed.

End Loop.

Lemma splitLoop_ends fuel : forall rem bubbles,
  Trimmed rem -> (length rem < fuel)%nat ->
  exists tail, splitLoop fuel rem bubbles = Some (bubbles ++ tail)
               /\ Forall Trimmed tail /\ Rebuilds tail rem.
Proof.
  induction fuel as [|fuel IH]; intros rem bubbles Htr Hlen; [lia|].
  cbn [splitLoop]. unfold MAX_CHUNK, MIN_CHUNK, IDEAL_CHUNK.
  destruct (Z.of_nat (length rem) >? 0) eqn:E0; cbn [negb].
  2:{ exists []. rewrite app_nil_r. split; [reflexivity|]. split; [constructor|].
      assert (length rem = 0)%nat as Hz by lia.
      destruct rem; [|discriminate Hz]. constructor. constructor. }
  destruct (Z.of_nat (length rem) <? 140) eqn:E1.
  { exists [rem]. split; [reflexivity|]. split; [by repeat constructor|].
    apply Rebuilds_one. }
  assert (rem <> []) as Hne by (intros ->; discriminate E0).
  assert (length rem <= fuel)%nat as Hle by lia.
  destruct (sentenceSplit_range rem (Z.min (Z.of_nat (length rem)) 140)) as [Hs|Hs].
  2:{ rewrite (proj2 (Z.eqb_neq _ (-1))) by (unfold MIN_CHUNK in Hs; lia).
      cbn [negb]. apply cut_step; [exact IH | unfold MIN_CHUNK in Hs; lia | done | done]. }
  rewrite Hs. cbn [Z.eqb negb].
  destruct (lastIndexOf rem [44%N] (Z.min (Z.of_nat (length rem)) 140) >? 20) eqn:E2.
  { apply cut_step; [exact IH | lia | done | done]. }
  destruct (lastIndexOf rem [32%N] 80 >? 20) eqn:E3.
  { apply cut_step; [exact IH | lia | done | done]. }
  destruct (indexOf rem [32%N] 80 =? -1) eqn:E4; cbn [negb].
  - destruct (IH [] (bubbles ++ [rem]) Trimmed_nil) as (tail & Heq & Ht & Hr).
    { cbn. lia. }
    exists (rem :: tail). split; [|split].
    + rewrite Heq, <- app_assoc. reflexivity.
    + by constructor.
    + rewrite <- (app_nil_r rem) at 2.
      apply (Rebuilds_cut [] rem tail []); [constructor | exact Hr].
  - apply cut_step; [exact IH | | done | done].
    destruct (indexOf_range rem [32%N] 80) as [H|H]; lia.
Qed.

(** ** Message pacing: [splitMessage] *)

(** [splitMessage] returns on every text: its loop never reaches the
    bound on its iterations. The fragments rebuild the text up to white
    space at the cuts and the ends. A text under 140 code units comes back
    whole, as it is. For a text of 140 code units or more every fragment
    is trimmed and none is empty. *)
Theorem splitMessage_fragments (text : jsstring) :
  exists frags,
    splitMessage text = Some frags
    /\ Rebuilds frags text
    /\ (Z.of_nat (length text) < MAX_CHUNK -> frags = [text])
    /\ (MAX_CHUNK <= Z.of_nat (length text) ->
          Forall (fun f => Trimmed f /\ f <> []) frags).
Proof.
  unfold splitMessage.
  destruct (Z.of_nat (length text) <? MAX_CHUNK) eqn:E.
  - exists [text]. split; [reflexivity|]. split; [apply Rebuilds_one|].
    split; [reflexivity | lia].
  - destruct (splitLoop_ends (S (length text)) (trim text) [] (trim_Trimmed text))
      as (tail & Heq & Ht & Hr).
    { pose proof (length_trim text). lia. }
    rewrite Heq. cbn [app fmap option_fmap option_map].
    exists (List.filter (fun b => (0 <? length b)%nat) tail).
    split; [reflexivity|]. split; [|split; [lia|]].
    + apply Rebuilds_filter. by apply Rebuilds_trim.
    + intros _. apply Forall_forall. intros f Hf.
      apply filter_In in Hf as [Hin Hlen].
      split.
      * rewrite Forall_forall in Ht. by apply Ht.
      * intros ->. discriminate Hlen.
Qed.

Lemma splitMessage_fragments_witness :
  exists frags,
    splitMessage sampleReply = Some frags
    /\ Rebuilds frags sampleReply
    /\ (Z.of_nat (length sampleReply) < MAX_CHUNK -> frags = [sampleReply])
    /\ (MAX_CHUNK <= Z.of_nat (length sampleReply) ->
          Forall (fun f => Trimmed f /\ f <> []) frags).
Proof. exact (splitMessage_fragments sampleReply). Defined.

Example splitMessage_sampleReply :
  splitMessage sampleReply
  = Some [js "I went to the market this morning.";
          js "It was crowded, loud and, frankly, a little overwhelming, so I left early and walked home along the river instead"].
Proof. vm_compute. reflexivity. Qed.

(** C3 (the code at the failing inputs). A text under 140 code units is
    returned as it is, ahead of the trimming and of the filter for empty
    fragments that longer texts go through: a reply with a line end after
    it comes back with the line end, not as the trimmed input, and the
    empty text comes back as one empty fragment. *)
Theorem splitMessage_short_not_trimmed :
  splitMessage (js "Hello!" ++ [10%N]) = Some [js "Hello!" ++ [10%N]]
  /\ trim (js "Hello!" ++ [10%N]) = js "Hello!"
  /\ ~ Trimmed (js "Hello!" ++ [10%N])
  /\ splitMessage (js " hi ") = Some [js " hi "]
  /\ trim (js " hi ") = js "hi"
  /\ splitMessage [] = Some [[]].
Proof.
  repeat (split; [reflexivity|]).
  split; [|repeat (split; [reflexivity|]); reflexivity].
  unfold Trimmed. vm_compute. discriminate.
Qed.

(** * The rest of the stores, the console handlers and the session *)

(** ** The view follows the active persona *)

Lemma find_filter_other pid pid' ps :
  pid' <> pid ->
  List.find (has_id pid') (List.filter (fun p => negb (has_id pid p)) ps)
  = List.find (has_id pid') ps.
Proof.
  intros Hne. induction ps as [|p ps IH]; [reflexivity|].
  cbn. destruct (has_id pid p) eqn:E; cbn.
  - unfold has_id in *. apply bool_decide_eq_true in E.
    rewrite (bool_decide_eq_false_2 (id p = pid')) by congruence. exact IH.
  - destruct (has_id pid' p); [reflexivity | exact IH].
Qed.

Lemma find_filter_same pid ps :
  List.find (has_id pid) (List.filter (fun p => negb (has_id pid p)) ps) = None.
Proof.
  induction ps as [|p ps IH]; [reflexivity|].
  cbn. destruct (has_id pid p) eqn:E; cbn; [exact IH|]. by rewrite E.
Qed.

Lemma getPersonaById_updateTurn_ne pid pid' i u st :
  pid' <> pid ->
  getPersonaById (updateTurnInHistory pid i u st) pid' = getPersonaById st pid'.
Proof.
  intros Hne. unfold getPersonaById, updateTurnInHistory. cbn.
  apply find_map_persona_ne; [apply updateTurnInPersona_id | exact Hne].
Qed.

Lemma getPersonaById_rapport_ne pid pid' r st :
  pid' <> pid ->
  getPersonaById (updatePersona_rapport pid r st) pid' = getPersonaById st pid'.
Proof.
  intros Hne. unfold getPersonaById, updatePersona_rapport. cbn.
  by apply find_map_persona_ne.
Qed.

Lemma getPersonaById_clear_ne pid pid' st :
  pid' <> pid ->
  getPersonaById (clearPersonaUnreadCount pid st) pid' = getPersonaById st pid'.
Proof.
  intros Hne. unfold getPersonaById, clearPersonaUnreadCount. cbn.
  by apply find_map_persona_ne.
Qed.

Lemma appendTurn_active now pid r c fin w :
  activePersonaId (app (appendTurn now pid r c fin w)) = activePersonaId (app w).
Proof.
  unfold appendTurn. destruct (getPersonaById (app w) pid); [|reflexivity].
  destruct (bool_decide (activePersonaId (app w) = Some pid)); [reflexivity|].
  by destruct (bool_decide (r = agent)).
Qed.

Lemma ViewSynced_appendTurn now pid r c fin w :
  ViewSynced w -> ViewSynced (appendTurn now pid r c fin w).
Proof.
  intros Hw a q Ha Ht Hq. rewrite appendTurn_active in Ha.
  destruct (decide (a = pid)) as [->|Hne].
  - destruct (getPersonaById (app w) pid) as [p|] eqn:Hp.
    + assert (appendTurn now pid r c fin w
              = mkWorld (updatePersonaChatHistory pid
                           (appendedHistory now r c fin (chatHistory p)) (app w))
                        (mkLog (appendedHistory now r c fin (chatHistory p)))) as Heq.
      { unfold appendTurn. by rewrite Hp, (bool_decide_eq_true_2 _ Ha). }
      rewrite Heq in Hq |- *. cbn [app log turns] in *.
      rewrite (getPersonaById_set_history pid _ _ _ Hp) in Hq.
      by injection Hq as <-.
    + assert (appendTurn now pid r c fin w = w) as Heq
        by (unfold appendTurn; by rewrite Hp).
      rewrite Heq in Hq |- *. by apply (Hw pid).
  - rewrite appendTurn_other_persona in Hq by exact Hne.
    rewrite <- (Hw a q Ha Ht Hq). unfold appendTurn.
    destruct (getPersonaById (app w) pid); [|reflexivity].
    rewrite bool_decide_eq_false_2 by congruence.
    by destruct (bool_decide (r = agent)).
Qed.

Lemma ViewSynced_finalizeTurn w : ViewSynced w -> ViewSynced (finalizeTurn w).
Proof.
  intros Hw. unfold finalizeTurn.
  destruct (activePersonaId (app w)) as [pid|] eqn:Ha; [|exact Hw].
  destruct (truthy pid); [|exact Hw]. cbn [negb].
  destruct (getPersonaById (app w) pid) as [p|] eqn:Hp; [|exact Hw].
  destruct (length (chatHistory p) =? 0)%nat; [exact Hw|].
  destruct (list.last (chatHistory p)) as [l|]; [|exact Hw].
  destruct (isFinal l); [exact Hw|]. cbn [negb].
  intros a q Ha' _ Hq. cbn in Ha'. cbn [app log turns] in Hq |- *.
  rewrite Ha in Ha'. injection Ha' as <-.
  rewrite (getPersonaById_set_history pid _ _ _ Hp) in Hq. by injection Hq as <-.
Qed.

Lemma ViewSynced_updateTurn i u w : ViewSynced w -> ViewSynced (updateTurn i u w).
Proof.
  intros Hw. unfold updateTurn.
  destruct (activePersonaId (app w)) as [pid|] eqn:Ha; [|exact Hw].
  destruct (truthy pid); [|exact Hw]. cbn [negb].
  destruct (getPersonaById (updateTurnInHistory pid i u (app w)) pid) as [p'|] eqn:Hp'.
  - intros a q Ha' _ Hq. cbn in Ha'. cbn [app log turns] in Hq |- *.
    rewrite Ha in Ha'. injection Ha' as <-.
    rewrite Hp' in Hq. by injection Hq as <-.
  - intros a q Ha' _ Hq. cbn in Ha'. cbn [app] in Hq.
    rewrite Ha in Ha'. injection Ha' as <-.
    by rewrite Hp' in Hq.
Qed.

Lemma ViewSynced_selectPersona i w : ViewSynced (selectPersona i w).
Proof.
  intros a q Ha Ht Hq. unfold selectPersona in *.
  destruct i as [pid|]; [|discriminate Ha].
  cbn in Ha. injection Ha as <-. rewrite Ht in *. cbn in Hq |- *.
  unfold getPersonaById in Hq. cbn in Hq. by rewrite Hq.
Qed.

Lemma ViewSynced_deletePersona pid w : ViewSynced w -> ViewSynced (deletePersona pid w).
Proof.
  intros Hw a q Ha Ht Hq. unfold deletePersona in *. cbn in Ha, Hq |- *.
  destruct (bool_decide (activePersonaId (app w) = Some pid)) eqn:E; [discriminate Ha|].
  apply bool_decide_eq_false in E.
  unfold getPersonaById in Hq. cbn in Hq.
  rewrite find_filter_other in Hq by congruence. by apply (Hw a).
Qed.

Lemma ViewSynced_rapport pid r w :
  ViewSynced w -> ViewSynced (mkWorld (updatePersona_rapport pid r (app w)) (log w)).
Proof.
  intros Hw a q Ha Ht Hq. cbn in Ha. cbn [app log turns] in Hq |- *.
  destruct (decide (a = pid)) as [->|Hne].
  - destruct (getPersonaById (app w) pid) as [p|] eqn:Hp.
    + rewrite (getPersonaById_rapport pid r _ _ Hp) in Hq. injection Hq as <-.
      cbn [chatHistory with_rapport]. by apply (Hw pid).
    + unfold getPersonaById, updatePersona_rapport in Hq. cbn in Hq.
      rewrite find_map_persona in Hq by reflexivity.
      unfold getPersonaById in Hp. by rewrite Hp in Hq.
  - rewrite getPersonaById_rapport_ne in Hq by exact Hne. by apply (Hw a).
Qed.

(** The view is the history of the active persona after every sequence of
    appends, sealings, turn updates, persona switches, deletions and
    rapport updates, from a store where it is so; a switch makes it so
    whatever the view held before. *)
Theorem view_follows_active_persona (ops : list StoreOp) (w : World) :
  ViewSynced w -> ViewSynced (storeRun ops w).
Proof.
  revert w. induction ops as [|o ops IH]; intros w Hw; [exact Hw|].
  cbn. apply IH. destruct o; cbn.
  - by apply ViewSynced_appendTurn.
  - by apply ViewSynced_finalizeTurn.
  - by apply ViewSynced_updateTurn.
  - apply ViewSynced_selectPersona.
  - by apply ViewSynced_deletePersona.
  - by apply ViewSynced_rapport.
Qed.

Lemma view_follows_active_persona_witness :
  ViewSynced (storeRun sampleOps (sampleWorld None))
  /\ turns (log (storeRun sampleOps (sampleWorld None)))
     = [mkTurn 2 agent (js "hey") true None].
Proof.
  split; [|reflexivity].
  apply view_follows_active_persona. intros pid p Ha. discriminate Ha.
Defined.

(** ** Deleting and adding personas *)

Lemma appendTurn_unknown now pid r c fin w :
  getPersonaById (app w) pid = None -> appendTurn now pid r c fin w = w.
Proof. intros H. unfold appendTurn. by rewrite H. Qed.

(** After [deletePersona(id)] no persona answers to the id, and every
    persona of another id is found as before. Deleting the active persona
    leaves no active persona and an empty view; deleting another one leaves
    the active id and the view alone. An append that arrives for the
    deleted id afterwards, as from a reply still being revealed, changes
    nothing. *)
Theorem deletePersona_forgets (pid : jsstring) (w : World) :
  getPersonaById (app (deletePersona pid w)) pid = None
  /\ (forall pid', pid' <> pid ->
        getPersonaById (app (deletePersona pid w)) pid' = getPersonaById (app w) pid')
  /\ (activePersonaId (app w) = Some pid ->
        activePersonaId (app (deletePersona pid w)) = None
        /\ turns (log (deletePersona pid w)) = [])
  /\ (activePersonaId (app w) <> Some pid ->
        activePersonaId (app (deletePersona pid w)) = activePersonaId (app w)
        /\ log (deletePersona pid w) = log w)
  /\ (forall now r c fin,
        appendTurn now pid r c fin (deletePersona pid w) = deletePersona pid w).
Proof.
  assert (getPersonaById (app (deletePersona pid w)) pid = None) as Hgone
    by apply find_filter_same.
  split; [exact Hgone|]. split; [|split; [|split]].
  - intros pid' Hne. unfold deletePersona, getPersonaById. cbn.
    by apply find_filter_other.
  - intros Ha. unfold deletePersona. by rewrite (bool_decide_eq_true_2 _ Ha).
  - intros Ha. unfold deletePersona. by rewrite (bool_decide_eq_false_2 _ Ha).
  - intros now r c fin. by apply appendTurn_unknown.
Qed.

Lemma deletePersona_forgets_witness :
  (activePersonaId (app (deletePersona idP1 greetedWorld)) = None
   /\ turns (log (deletePersona idP1 greetedWorld)) = [])
  /\ (activePersonaId (app (deletePersona idP2 greetedWorld)) = Some idP1
      /\ log (deletePersona idP2 greetedWorld) = log greetedWorld)
  /\ getPersonaById (app (deletePersona idP1 greetedWorld)) idP2
     = Some (samplePersona idP2).
Proof.
  split; [|split].
  - apply (proj1 (proj2 (proj2 (deletePersona_forgets idP1 greetedWorld)))).
    reflexivity.
  - apply (proj1 (proj2 (proj2 (proj2 (deletePersona_forgets idP2 greetedWorld))))).
    discriminate.
  - rewrite (proj1 (proj2 (deletePersona_forgets idP1 greetedWorld)) idP2);
      [reflexivity | discriminate].
Defined.

Lemma find_app_found {A} (f : A -> bool) (l1 l2 : list A) x :
  List.find f l1 = Some x -> List.find f (l1 ++ l2) = Some x.
Proof.
  induction l1 as [|a l1 IH]; [discriminate|]. cbn.
  destruct (f a); [done | exact IH].
Qed.

Lemma find_app_missing {A} (f : A -> bool) (l1 l2 : list A) :
  List.find f l1 = None -> List.find f (l1 ++ l2) = List.find f l2.
Proof.
  induction l1 as [|a l1 IH]; [reflexivity|]. cbn.
  destruct (f a); [discriminate | exact IH].
Qed.

(** The id [addPersona] makes is never the empty string, so the tests
    [if (id)] of [selectPersona] and [if (!activePersonaId)] of the view
    store take the new persona as present. The new persona never hides an
    existing one: every id known before still finds the same persona. When
    the new id is not in use, it finds the new persona, with an empty
    history. *)
Theorem addPersona_keeps_known (lower : jsstring -> jsstring) (now : N)
    (personaData : Persona) (st : AppState) :
  truthy (newPersonaId lower (name personaData) now) = true
  /\ (forall pid p, getPersonaById st pid = Some p ->
        getPersonaById (addPersona lower now personaData st) pid = Some p)
  /\ (getPersonaById st (newPersonaId lower (name personaData) now) = None ->
        exists p,
          getPersonaById (addPersona lower now personaData st)
                         (newPersonaId lower (name personaData) now) = Some p
          /\ chatHistory p = [] /\ name p = name personaData
          /\ rapport p = rapport personaData)
  /\ activePersonaId (addPersona lower now personaData st) = activePersonaId st.
Proof.
  split; [|split; [|split]].
  - unfold newPersonaId.
    destruct (List.map _ (lower (name personaData))); reflexivity.
  - intros pid p Hp. unfold getPersonaById, addPersona in *. cbn.
    by apply find_app_found.
  - intros Hnew. unfold getPersonaById, addPersona in *. cbn.
    rewrite find_app_missing by exact Hnew. cbn. unfold has_id. cbn.
    rewrite bool_decide_eq_true_2 by reflexivity. eexists. repeat split.
  - reflexivity.
Qed.

Lemma addPersona_keeps_known_witness :
  newPersonaId lowerAscii (js "Ada Lovelace") 1700000000000 = js "ada-lovelace-1700000000000"
  /\ getPersonaById (addPersona lowerAscii 1700000000000 (samplePersona (js "Ada Lovelace"))
                       (app greetedWorld)) idP1
     = getPersonaById (app greetedWorld) idP1
  /\ exists p,
       getPersonaById (addPersona lowerAscii 1700000000000 (samplePersona (js "Ada Lovelace"))
                         (app greetedWorld)) (js "ada-lovelace-1700000000000") = Some p
       /\ chatHistory p = [] /\ name p = js "Ada Lovelace"
       /\ rapport p = num_of_Z 500.
Proof.
  split; [reflexivity|]. split.
  - apply (proj1 (proj2 (addPersona_keeps_known lowerAscii 1700000000000
                           (samplePersona (js "Ada Lovelace")) (app greetedWorld)))).
    reflexivity.
  - apply (proj1 (proj2 (proj2 (addPersona_keeps_known lowerAscii 1700000000000
                                  (samplePersona (js "Ada Lovelace")) (app greetedWorld))))).
    reflexivity.
Defined.

(** ** Unread counts over a burst *)

Lemma appendTurn_unread now pid r c fin w p :
  getPersonaById (app w) pid = Some p ->
  exists p', getPersonaById (app (appendTurn now pid r c fin w)) pid = Some p'
    /\ unread p' = (unread p
                    + (if bool_decide (activePersonaId (app w) = Some pid) then 0
                       else if bool_decide (r = agent) then 1 else 0))%nat.
Proof.
  intros Hp. unfold appendTurn. rewrite Hp.
  pose proof (getPersonaById_set_history pid
                (appendedHistory now r c fin (chatHistory p)) _ _ Hp) as Hset.
  destruct (bool_decide (activePersonaId (app w) = Some pid)).
  - eexists. split; [exact Hset|]. cbn. unfold unread. lia.
  - destruct (bool_decide (r = agent)).
    + eexists. split; [apply getPersonaById_increment; exact Hset|]. reflexivity.
    + eexists. split; [exact Hset|]. cbn. unfold unread. lia.
Qed.

(** The unread count of a persona counts calls, not turns: a burst of
    [appendTurn] calls for a known persona that is not the active one adds
    the number of calls to its count when the role is agent, also when the
    chunks all extend one open turn, and adds nothing for the other roles;
    for the active persona the count stays as it is. *)
Theorem unread_counts_calls (pid : jsstring) (r : Role) (cs : list Chunk)
    (w : World) (p : Persona) :
  getPersonaById (app w) pid = Some p ->
  exists p', getPersonaById (app (appendChunks pid r cs w)) pid = Some p'
    /\ unread p' = (unread p
                    + (if bool_decide (activePersonaId (app w) = Some pid) then 0
                       else if bool_decide (r = agent) then length cs else 0))%nat.
Proof.
  revert w p. induction cs as [|c cs IH]; intros w p Hp.
  - exists p. split; [exact Hp|]. repeat case_bool_decide; cbn; lia.
  - destruct (appendTurn_unread (c_now c) pid r (c_text c) (c_final c) w p Hp)
      as (p1 & Hp1 & Hu1).
    destruct (IH _ _ Hp1) as (p' & Hp' & Hu').
    exists p'. split; [exact Hp'|].
    rewrite appendTurn_active in Hu'. rewrite Hu', Hu1.
    repeat case_bool_decide; cbn [length]; lia.
Qed.

Lemma unread_counts_calls_witness :
  exists p', getPersonaById
               (app (appendChunks idP2 agent
                       [mkChunk 1 (js "he") None; mkChunk 2 (js "y") None;
                        mkChunk 3 (js "!") (Some true)]
                       (sampleWorld (Some idP1)))) idP2 = Some p'
    /\ unread p' = 3%nat.
Proof.
  exact (unread_counts_calls idP2 agent
           [mkChunk 1 (js "he") None; mkChunk 2 (js "y") None;
            mkChunk 3 (js "!") (Some true)]
           (sampleWorld (Some idP1)) (samplePersona idP2) eq_refl).
Defined.

(** ** Revealing a reply *)

Lemma extendsTrailing_final r h t :
  isFinal t = true -> extendsTrailing r (h ++ [t]) = false.
Proof.
  intros Hf. unfold extendsTrailing. rewrite last_snoc, Hf. apply andb_false_r.
Qed.

Lemma appendedHistory_fresh now r c fin h :
  extendsTrailing r h = false ->
  appendedHistory now r c fin h = h ++ [mkTurn now r c (default false fin) None].
Proof.
  intros Hext. unfold extendsTrailing in Hext. unfold appendedHistory.
  destruct (list.last h) as [l|]; [by rewrite Hext | reflexivity].
Qed.

Lemma final_chunks_fold r (clock : nat -> Z) frags : forall (k : nat) h,
  extendsTrailing r h = false ->
  fold_left (fun h c => appendedHistory (c_now c) r (c_text c) (c_final c) h)
            (imap (fun i f => mkChunk (clock (k + i)%nat) f (Some true)) frags) h
  = h ++ imap (fun i f => mkTurn (clock (k + i)%nat) r f true None) frags.
Proof.
  induction frags as [|f frags IH]; intros k h Hext.
  - cbn. by rewrite app_nil_r.
  - cbn [imap fold_left c_now c_text c_final].
    rewrite appendedHistory_fresh by exact Hext. cbn [default].
    rewrite (imap_ext _ (fun i f => mkChunk (clock (S k + i)%nat) f (Some true)))
      by (intros i x _; cbn; f_equal; f_equal; lia).
    rewrite (IH (S k)) by (by apply extendsTrailing_final).
    rewrite <- app_assoc. cbn [app]. do 2 f_equal.
    apply imap_ext. intros i x _. cbn. f_equal. f_equal. lia.
Qed.

Lemma splitMessage_rebuilds text :
  exists frags, splitMessage text = Some frags /\ Rebuilds frags text.
Proof.
  unfold splitMessage.
  destruct (Z.of_nat (length text) <? MAX_CHUNK) eqn:E.
  - exists [text]. split; [reflexivity | apply Rebuilds_one].
  - destruct (splitLoop_ends (S (length text)) (trim text) [] (trim_Trimmed text))
      as (tail & Heq & _ & Hr).
    { pose proof (length_trim text). lia. }
    rewrite Heq. cbn [app fmap option_fmap option_map].
    eexists. split; [reflexivity|].
    apply Rebuilds_filter. by apply Rebuilds_trim.
Qed.

(** Revealing a reply to a known persona whose trailing turn is not an open
    agent turn adds one final agent turn per fragment of [splitMessage], in
    order, each holding its fragment and the time of its append; the
    fragments rebuild the reply up to white space at the cuts and ends.
    This holds whichever persona is active, so also after the user has
    moved to another conversation. *)
Theorem reveal_adds_fragments (clock : nat -> Z) (pid : jsstring) (agentText : jsstring)
    (w : World) (p : Persona) :
  getPersonaById (app w) pid = Some p ->
  extendsTrailing agent (chatHistory p) = false ->
  exists frags,
    splitMessage agentText = Some frags
    /\ Rebuilds frags agentText
    /\ historyOf (revealReply clock pid agentText w) pid
       = chatHistory p ++ imap (fun i f => mkTurn (clock i) agent f true None) frags.
Proof.
  intros Hp Hext.
  destruct (splitMessage_rebuilds agentText) as (frags & Hs & Hr).
  exists frags. split; [exact Hs|]. split; [exact Hr|].
  unfold revealReply. rewrite Hs.
  rewrite (appendChunks_history pid agent _ w p Hp).
  exact (final_chunks_fold agent clock frags 0 (chatHistory p) Hext).
Qed.

Lemma reveal_adds_fragments_witness :
  exists frags,
    splitMessage sampleReply = Some frags
    /\ Rebuilds frags sampleReply
    /\ historyOf (revealReply Z.of_nat idP1 sampleReply greetedWorld) idP1
       = [mkTurn 1 user (js "Hi") true None]
         ++ imap (fun i f => mkTurn (Z.of_nat i) agent f true None) frags.
Proof.
  exact (reveal_adds_fragments Z.of_nat idP1 sampleReply greetedWorld
           (with_chatHistory (samplePersona idP1) [mkTurn 1 user (js "Hi") true None])
           eq_refl eq_refl).
Defined.

(** ** What sealing and reacting leave alone *)

Lemma fmap_insert_same {A B} (f : A -> B) (h : list A) (n : nat) (t x : A) :
  h !! n = Some t -> f x = f t -> f <$> <[n := x]> h = f <$> h.
Proof.
  intros Hn Hf. rewrite list_fmap_insert, Hf. apply list_insert_id.
  by rewrite list_lookup_fmap, Hn.
Qed.

Lemma last_lookup_index {A} (h : list A) (l : A) :
  list.last h = Some l -> h !! (length h - 1)%nat = Some l.
Proof.
  intros H. apply last_Some in H as [h' ->].
  rewrite length_app. cbn. replace (length h' + 1 - 1)%nat with (length h' + 0)%nat by lia.
  by rewrite lookup_app_r, Nat.add_0_r, Nat.sub_diag by lia.
Qed.

(** The history of the active persona after [finalizeTurn]. *)
Lemma finalizeTurn_history w pid p :
  activePersonaId (app w) = Some pid -> truthy pid = true ->
  getPersonaById (app w) pid = Some p ->
  historyOf (finalizeTurn w) pid
  = match list.last (chatHistory p) with
    | Some l =>
        if isFinal l then chatHistory p
        else <[(length (chatHistory p) - 1)%nat :=
                 mkTurn (timestamp l) (role l) (text l) true (reaction l)]> (chatHistory p)
    | None => chatHistory p
    end.
Proof.
  intros Ha Ht Hp. unfold finalizeTurn. rewrite Ha, Ht. cbn [negb]. rewrite Hp.
  assert (historyOf w pid = chatHistory p) as Hsame
    by (unfold historyOf; by rewrite Hp).
  destruct (length (chatHistory p) =? 0)%nat eqn:Hlen.
  - apply Nat.eqb_eq in Hlen. destruct (chatHistory p); [exact Hsame | discriminate].
  - destruct (list.last (chatHistory p)) as [l|]; [|exact Hsame].
    destruct (isFinal l); [exact Hsame|]. cbn [negb].
    unfold historyOf. cbn [app].
    by rewrite (getPersonaById_set_history pid _ _ _ Hp).
Qed.

Lemma finalizeTurn_other w pid' :
  activePersonaId (app w) <> Some pid' ->
  getPersonaById (app (finalizeTurn w)) pid' = getPersonaById (app w) pid'.
Proof.
  intros Hne. unfold finalizeTurn.
  destruct (activePersonaId (app w)) as [pid|] eqn:Ha; [|reflexivity].
  destruct (truthy pid); [|reflexivity]. cbn [negb].
  destruct (getPersonaById (app w) pid) as [p|]; [|reflexivity].
  destruct (length (chatHistory p) =? 0)%nat; [reflexivity|].
  destruct (list.last (chatHistory p)) as [l|]; [|reflexivity].
  destruct (isFinal l); [reflexivity|]. cbn [negb app].
  apply getPersonaById_set_history_ne. congruence.
Qed.

(** After [finalizeTurn] the trailing turn of the active persona is final.
    Nothing else moves: timestamps, roles, texts and reactions of its turns
    are as before, every turn before the trailing one is the same turn, and
    the personas of other ids are untouched. *)
Theorem finalizeTurn_seals (w : World) (pid : jsstring) (p : Persona) :
  activePersonaId (app w) = Some pid ->
  truthy pid = true ->
  getPersonaById (app w) pid = Some p ->
  (forall l, list.last (historyOf (finalizeTurn w) pid) = Some l -> isFinal l = true)
  /\ withoutFinal <$> historyOf (finalizeTurn w) pid = withoutFinal <$> chatHistory p
  /\ take (length (chatHistory p) - 1) (historyOf (finalizeTurn w) pid)
     = take (length (chatHistory p) - 1) (chatHistory p)
  /\ (forall pid', pid' <> pid ->
        getPersonaById (app (finalizeTurn w)) pid' = getPersonaById (app w) pid').
Proof.
  intros Ha Ht Hp. rewrite (finalizeTurn_history w pid p Ha Ht Hp).
  split; [|split; [|split]].
  - destruct (list.last (chatHistory p)) as [l|] eqn:Hl.
    + destruct (isFinal l) eqn:Hf.
      * intros l' Hl'. rewrite Hl in Hl'. by injection Hl' as <-.
      * intros l' Hl'. rewrite last_replace in Hl'; [by injection Hl' as <-|].
        intros Hnil. by rewrite Hnil in Hl.
    + intros l' Hl'. by rewrite Hl in Hl'.
  - destruct (list.last (chatHistory p)) as [l|] eqn:Hl; [|reflexivity].
    destruct (isFinal l); [reflexivity|].
    apply (fmap_insert_same _ _ _ l); [by apply last_lookup_index | reflexivity].
  - destruct (list.last (chatHistory p)) as [l|] eqn:Hl; [|reflexivity].
    destruct (isFinal l); [reflexivity|].
    apply take_insert_ge. lia.
  - intros pid' Hne. apply finalizeTurn_other. rewrite Ha. congruence.
Qed.

Lemma finalizeTurn_seals_witness :
  (forall l, list.last (historyOf (finalizeTurn midReplyWorld) idP1) = Some l ->
             isFinal l = true)
  /\ historyOf (finalizeTurn midReplyWorld) idP1 = [mkTurn 1 agent (js "Hel") true None].
Proof.
  split; [|reflexivity].
  exact (proj1 (finalizeTurn_seals midReplyWorld idP1
                  (with_chatHistory (samplePersona idP1)
                     [mkTurn 1 agent (js "Hel") false None])
                  eq_refl eq_refl eq_refl)).
Defined.

Lemma OnlyTrailingOpen_same_flags h h' :
  isFinal <$> h' = isFinal <$> h -> OnlyTrailingOpen h -> OnlyTrailingOpen h'.
Proof.
  intros Hflags Hh i t' Hi Hlt.
  assert (length h' = length h) as Hlen
    by (rewrite <- (length_fmap isFinal h'), Hflags; apply length_fmap).
  assert ((isFinal <$> h) !! i = Some (isFinal t')) as Hfi
    by (rewrite <- Hflags, list_lookup_fmap, Hi; reflexivity).
  rewrite list_lookup_fmap in Hfi.
  destruct (h !! i) as [t|] eqn:Ht; [|discriminate].
  cbn in Hfi. injection Hfi as <-. apply (Hh i t Ht). lia.
Qed.

Lemma updateTurnInPersona_words i ro p :
  withoutReaction <$> chatHistory (updateTurnInPersona i (mkUpdates None None None None ro) p)
  = withoutReaction <$> chatHistory p.
Proof.
  unfold updateTurnInPersona.
  destruct (at_index (chatHistory p) i) as [t|] eqn:Hi; [|reflexivity].
  cbn [chatHistory with_chatHistory].
  apply (fmap_insert_same _ _ _ t); [|reflexivity].
  unfold at_index in Hi. by destruct (0 <=? i).
Qed.

Lemma getPersonaById_updateTurn_fmap pid i u st :
  getPersonaById (updateTurnInHistory pid i u st) pid
  = updateTurnInPersona i u <$> getPersonaById st pid.
Proof.
  unfold getPersonaById, updateTurnInHistory. cbn.
  apply find_map_persona, updateTurnInPersona_id.
Qed.

(** A reaction never changes what was said: after
    [updateTurn(i, {reaction})], or an update with no key at all, every
    history holds the same turns as before up to their reactions, with the
    same timestamps, roles, texts and [isFinal] flags, so a store in
    which only trailing turns are open stays so; the active persona stays
    the same. *)
Theorem reaction_keeps_words (i : Z) (ro : option jsstring) (w : World) :
  let w' := updateTurn i (mkUpdates None None None None ro) w in
  (forall pid, withoutReaction <$> historyOf w' pid = withoutReaction <$> historyOf w pid)
  /\ (HistoriesSealed w -> HistoriesSealed w')
  /\ activePersonaId (app w') = activePersonaId (app w).
Proof.
  set (u := mkUpdates None None None None ro). intros w'. subst w'.
  unfold updateTurn.
  destruct (activePersonaId (app w)) as [a|] eqn:Ha; [|by rewrite ?Ha].
  destruct (truthy a); [|by rewrite ?Ha]. cbn [negb].
  assert (forall lg,
            (forall pid,
               withoutReaction <$> historyOf (mkWorld (updateTurnInHistory a i u (app w)) lg) pid
               = withoutReaction <$> historyOf w pid)
            /\ (HistoriesSealed w ->
                HistoriesSealed (mkWorld (updateTurnInHistory a i u (app w)) lg))) as Hcore.
  { intros lg. split.
    - intros pid. unfold historyOf. cbn [app].
      destruct (decide (pid = a)) as [->|Hne].
      + rewrite getPersonaById_updateTurn_fmap.
        destruct (getPersonaById (app w) a) as [p|]; [|reflexivity].
        apply updateTurnInPersona_words.
      + by rewrite getPersonaById_updateTurn_ne.
    - intros Hw q Hq. cbn in Hq.
      apply elem_of_map_persona in Hq as [Hq | (p & Hp & _ & ->)]; [by apply Hw|].
      apply (OnlyTrailingOpen_same_flags (chatHistory p)); [|by apply Hw].
      pose proof (updateTurnInPersona_words i ro p) as Hwords.
      apply (f_equal (fmap (fun x : Z * Role * jsstring * bool => snd x))) in Hwords.
      rewrite <- !list_fmap_compose in Hwords. exact Hwords. }
  destruct (getPersonaById (updateTurnInHistory a i u (app w)) a) as [p'|].
  - destruct (Hcore (mkLog (chatHistory p'))) as [H1 H2]. by repeat split.
  - destruct (Hcore (log w)) as [H1 H2]. by repeat split.
Qed.

Lemma reaction_keeps_words_witness :
  HistoriesSealed (updateTurn 0 (mkUpdates None None None None (Some heart)) greetedWorld)
  /\ historyOf (updateTurn 0 (mkUpdates None None None None (Some heart)) greetedWorld) idP1
     = [mkTurn 1 user (js "Hi") true (Some heart)].
Proof.
  split; [|reflexivity].
  apply (proj1 (proj2 (reaction_keeps_words 0 (Some heart) greetedWorld))).
  intros p Hp. cbn in Hp.
  apply elem_of_cons in Hp as [->|Hp].
  - intros n t Hn Hlt. change (S n < 1)%nat in Hlt. lia.
  - apply list_elem_of_singleton in Hp as ->. apply OnlyTrailingOpen_nil.
Defined.

(** ** Rapport within its scale *)

(** Whatever the remote service replies, the rapport analysis keeps every
    persona's rapport in [0, 1000] when it was there, and it never touches
    a chat history, an unread count, or a persona of another id. *)
Theorem rapport_stays_in_range (pid : jsstring) (exchange : list ConversationTurn)
    (o : ReplyOutcome) (st0 st : AppState) :
  (RapportInRange st -> RapportInRange (analyzeRapport pid exchange o st0 st))
  /\ (forall pid',
        chatHistory <$> getPersonaById (analyzeRapport pid exchange o st0 st) pid'
        = chatHistory <$> getPersonaById st pid'
        /\ unreadCount <$> getPersonaById (analyzeRapport pid exchange o st0 st) pid'
           = unreadCount <$> getPersonaById st pid')
  /\ (forall pid', pid' <> pid ->
        getPersonaById (analyzeRapport pid exchange o st0 st) pid' = getPersonaById st pid')
  /\ activePersonaId (analyzeRapport pid exchange o st0 st) = activePersonaId st.
Proof.
  assert (analyzeRapport pid exchange o st0 st = st
          \/ exists n, analyzeRapport pid exchange o st0 st
                       = updatePersona_rapport pid (clampRapport n) st) as [Heq|[n Heq]].
  { unfold analyzeRapport, analyzeRapport_resume.
    destruct (analyzeRapport_proceeds st0 pid exchange); [|by left].
    destruct o as [| | |parsed]; try (by left).
    destruct (get_updatedRapport parsed) as [| |v]; try (by left).
    destruct v; try (by left). right. by eexists. }
  - rewrite Heq. split; [by intros H|]. split; [by intros pid'|]. by split.
  - rewrite Heq. split; [|split; [|split]].
    + intros Hst q Hq. cbn in Hq.
      apply elem_of_map_persona in Hq as [Hq | (p & Hp & _ & ->)]; [by apply Hst|].
      cbn. apply clampRapport_bounds.
    + intros pid'. destruct (decide (pid' = pid)) as [->|Hne].
      * unfold getPersonaById, updatePersona_rapport. cbn.
        rewrite find_map_persona by reflexivity.
        by destruct (List.find (has_id pid) (personas st)).
      * by rewrite getPersonaById_rapport_ne.
    + intros pid' Hne. by apply getPersonaById_rapport_ne.
    + reflexivity.
Qed.

Lemma rapport_stays_in_range_witness :
  RapportInRange (analyzeRapport idP1 sampleExchange reply1200
                    (app greetedWorld) (app greetedWorld)).
Proof.
  apply (proj1 (rapport_stays_in_range idP1 sampleExchange reply1200
                  (app greetedWorld) (app greetedWorld))).
  intros p Hp. cbn in Hp.
  apply elem_of_cons in Hp as [->|Hp]; [by split|].
  apply list_elem_of_singleton in Hp as ->. by split.
Defined.

(** ** Typing delay *)

Lemma splitWhiteFrom_nonempty g cur s : (1 <= length (splitWhiteFrom g cur s))%nat.
Proof.
  revert g cur. induction s as [|c s IH]; intros g cur; cbn; [lia|].
  destruct (isWhite c); [destruct g; [apply IH | cbn; lia] | apply IH].
Qed.

Lemma splitWhiteFrom_ink w : forall cur s,
  Forall (fun c => isWhite c = false) w ->
  splitWhiteFrom false cur (w ++ s) = splitWhiteFrom false (cur ++ w) s.
Proof.
  induction w as [|c w IH]; intros cur s Hw; [by rewrite app_nil_r|].
  apply Forall_cons_iff in Hw as [Hc Hw]. cbn. rewrite Hc.
  rewrite (IH _ _ Hw), <- app_assoc. reflexivity.
Qed.

Lemma join_cons2 sep x y rest :
  join sep (x :: y :: rest) = x ++ sep ++ join sep (y :: rest).
Proof. reflexivity. Qed.

Lemma join_words_head ws :
  ws <> [] -> Forall IsWord ws ->
  exists c s, join [32%N] ws = c :: s /\ isWhite c = false.
Proof.
  intros Hne Hws. destruct ws as [|w ws]; [done|].
  apply Forall_cons_iff in Hws as [[Hw Hink] _].
  destruct w as [|c w]; [done|]. apply Forall_cons_iff in Hink as [Hc _].
  destruct ws as [|w2 ws]; [by exists c, w|].
  rewrite join_cons2. by eexists c, _.
Qed.

Lemma join_words_last ws :
  ws <> [] -> Forall IsWord ws ->
  exists s c, join [32%N] ws = s ++ [c] /\ isWhite c = false.
Proof.
  induction ws as [|w ws IH]; intros Hne Hws; [done|].
  apply Forall_cons_iff in Hws as [[Hw Hink] Hws].
  destruct ws as [|w2 ws].
  - destruct (list.last w) as [c|] eqn:Hl.
    + apply last_Some in Hl as [s ->]. exists s, c. split; [reflexivity|].
      apply Forall_app in Hink as [_ Hc]. by apply Forall_cons_iff in Hc as [Hc _].
    + apply last_None in Hl. contradiction.
  - destruct (IH ltac:(done) Hws) as (s & c & Hj & Hc).
    rewrite join_cons2, Hj. exists (w ++ [32%N] ++ s), c.
    split; [by rewrite <- !app_assoc | exact Hc].
Qed.

Lemma trim_join_words ws :
  ws <> [] -> Forall IsWord ws -> trim (join [32%N] ws) = join [32%N] ws.
Proof.
  intros Hne Hws.
  destruct (join_words_head ws Hne Hws) as (c & s & Hj & Hc).
  destruct (join_words_last ws Hne Hws) as (s' & c' & Hj' & Hc').
  unfold trim. rewrite trimStart_ink by (rewrite Hj; cbn; by rewrite Hc).
  apply trimEnd_ink. rewrite Hj', rev_app_distr. cbn. by rewrite Hc'.
Qed.

Lemma splitWhite_join_words ws : forall cur,
  ws <> [] -> Forall IsWord ws ->
  exists w rest, ws = w :: rest
                 /\ splitWhiteFrom false cur (join [32%N] ws) = (cur ++ w) :: rest.
Proof.
  induction ws as [|w ws IH]; intros cur Hne Hws; [done|].
  exists w, ws. split; [reflexivity|].
  pose proof Hws as Hall. apply Forall_cons_iff in Hws as [[Hw Hink] Hws].
  destruct ws as [|w2 ws].
  - cbn [join]. rewrite <- (app_nil_r w) at 1.
    by rewrite (splitWhiteFrom_ink w cur [] Hink).
  - rewrite join_cons2, (splitWhiteFrom_ink w cur _ Hink).
    change ([32%N] ++ ?x) with (32%N :: x). cbn [splitWhiteFrom].
    change (isWhite 32) with true. cbn iota. f_equal.
    destruct (join_words_head (w2 :: ws) ltac:(done) Hws) as (c & s & Hj & Hc).
    destruct (IH [] ltac:(done) Hws) as (w' & rest' & Heq & Hsplit).
    injection Heq as <- <-. rewrite app_nil_l in Hsplit.
    etransitivity; [|exact Hsplit].
    rewrite Hj. cbn [splitWhiteFrom]. by rewrite Hc.
Qed.

Lemma delay_of_words (n : nat) :
  (1 <= n)%nat ->
  Math_max (num_of_Z 400)
           (Fin (Qc_of_Z (Z.of_nat n) * (Qc_of_Z 60 / Qc_of_Z 80) * Qc_of_Z 1000)%Qc)
  = num_of_Z (750 * Z.of_nat n).
Proof.
  intros Hn.
  assert ((Qc_of_Z (Z.of_nat n) * (Qc_of_Z 60 / Qc_of_Z 80) * Qc_of_Z 1000)%Qc
          = Qc_of_Z (750 * Z.of_nat n)) as ->.
  { rewrite Z2Qc_inj_mul.
    assert (Qc_of_Z 60 / Qc_of_Z 80 * Qc_of_Z 1000 = Qc_of_Z 750)%Qc as H
      by (apply Qc_is_canon; reflexivity).
    rewrite <- H. ring. }
  unfold Math_max, num_of_Z, num_leb.
  rewrite bool_decide_eq_true_2; [reflexivity|].
  apply (proj1 (Z2Qc_inj_le _ _)). lia.
Qed.

(** The delay before a fragment is 750 ms for each piece that
    [text.trim().split(/\s+/)] returns, and there is always at least one
    piece: the delay is never 0 and never the 400 ms floor, it is 750 ms or
    more, for the empty text too. For words separated by single spaces
    the pieces are the words. *)
Theorem typing_delay_per_word (text : jsstring) :
  let pieces := length (splitWhite (trim text)) in
  (1 <= pieces)%nat
  /\ calculateTypingDelay text = num_of_Z (750 * Z.of_nat pieces)
  /\ num_leb (num_of_Z 750) (calculateTypingDelay text) = true
  /\ (forall ws, ws <> [] -> Forall IsWord ws -> text = join [32%N] ws ->
        calculateTypingDelay text = num_of_Z (750 * Z.of_nat (length ws))).
Proof.
  intros pieces.
  assert (1 <= pieces)%nat as Hp by apply splitWhiteFrom_nonempty.
  assert (calculateTypingDelay text = num_of_Z (750 * Z.of_nat pieces)) as Hd.
  { unfold calculateTypingDelay. fold pieces.
    destruct (pieces =? 0)%nat eqn:E; [apply Nat.eqb_eq in E; lia|].
    by apply delay_of_words. }
  split; [exact Hp|]. split; [exact Hd|]. split.
  - rewrite Hd. unfold num_of_Z, num_leb. apply bool_decide_eq_true_2.
    apply (proj1 (Z2Qc_inj_le _ _)). lia.
  - intros ws Hne Hws ->. rewrite Hd. subst pieces.
    rewrite trim_join_words by done.
    destruct (splitWhite_join_words ws [] Hne Hws) as (w & rest & -> & Hs).
    unfold splitWhite. by rewrite Hs.
Qed.

Lemma typing_delay_per_word_witness :
  calculateTypingDelay (js "so I left early") = num_of_Z 3000
  /\ calculateTypingDelay [] = num_of_Z 750.
Proof.
  split.
  - apply (proj2 (proj2 (proj2 (typing_delay_per_word (js "so I left early"))))
             [js "so"; js "I"; js "left"; js "early"]);
      [discriminate | | reflexivity].
    repeat constructor; try discriminate.
  - exact (proj1 (proj2 (typing_delay_per_word []))).
Defined.

(** ** Live events: content and turn completion *)

Lemma finalizeTurn_known w pid p :
  getPersonaById (app w) pid = Some p ->
  exists q, getPersonaById (app (finalizeTurn w)) pid = Some q.
Proof.
  intros Hp. unfold finalizeTurn.
  destruct (activePersonaId (app w)) as [a|]; [|by exists p].
  destruct (truthy a); [|by exists p]. cbn [negb].
  destruct (getPersonaById (app w) a) as [pa|] eqn:Hpa; [|by exists p].
  destruct (length (chatHistory pa) =? 0)%nat; [by exists p|].
  destruct (list.last (chatHistory pa)) as [l|]; [|by exists p].
  destruct (isFinal l); [by exists p|]. cbn [negb app].
  destruct (decide (pid = a)) as [->|Hne].
  - eexists. by apply getPersonaById_set_history.
  - exists p. by rewrite getPersonaById_set_history_ne.
Qed.

Lemma finalizeTurn_last_final w pid p l :
  activePersonaId (app w) = Some pid -> truthy pid = true ->
  getPersonaById (app w) pid = Some p ->
  list.last (historyOf (finalizeTurn w) pid) = Some l -> isFinal l = true.
Proof.
  intros Ha Ht Hp. rewrite (finalizeTurn_history w pid p Ha Ht Hp).
  destruct (list.last (chatHistory p)) as [l0|] eqn:Hl.
  - destruct (isFinal l0) eqn:Hf.
    + intros Hl'. rewrite Hl in Hl'. by injection Hl' as <-.
    + intros Hl'. rewrite last_replace in Hl'; [by injection Hl' as <-|].
      intros Hnil. by rewrite Hnil in Hl.
  - intros Hl'. by rewrite Hl in Hl'.
Qed.

Lemma lastUserScan_spec ts : forall n,
  (n <= length ts)%nat ->
  (lastUserScan ts n = -1
   /\ forall i t, (i < n)%nat -> ts !! i = Some t -> finalUser t = false)
  \/ (exists k t, lastUserScan ts n = Z.of_nat k /\ (k < n)%nat
                  /\ ts !! k = Some t /\ finalUser t = true
                  /\ forall j x, (k < j < n)%nat -> ts !! j = Some x -> finalUser x = false).
Proof.
  induction n as [|n IH]; intros Hn.
  - left. split; [reflexivity|]. intros i t Hi. lia.
  - cbn [lastUserScan].
    destruct (ts !! n) as [t|] eqn:Ht; [|apply lookup_ge_None in Ht; lia].
    fold (finalUser t). destruct (finalUser t) eqn:Hf.
    + right. exists n, t. repeat split; [lia | exact Ht | exact Hf |].
      intros j x Hj. lia.
    + destruct (IH ltac:(lia)) as [[Hs Hall] | (k & t' & Hs & Hk & Hkt & Hkf & Hafter)].
      * left. split; [exact Hs|]. intros i x Hi Hx.
        destruct (decide (i = n)) as [->|Hne].
        -- rewrite Ht in Hx. by injection Hx as <-.
        -- apply (Hall i x); [lia | exact Hx].
      * right. exists k, t'. repeat split; [exact Hs | lia | exact Hkt | exact Hkf |].
        intros j x Hj Hx. destruct (decide (j = n)) as [->|Hne].
        -- rewrite Ht in Hx. by injection Hx as <-.
        -- apply (Hafter j x); [lia | exact Hx].
Qed.

(** What [turncomplete] hands to the rapport analysis. The stores are
    those after [finalizeTurn]. An exchange is dispatched exactly when the
    view holds a final user turn, and then it runs from the last such turn
    to the end of the view: it is never empty, it opens with a final user
    turn, and it holds no other one. When the view follows the active
    persona, the last turn of the exchange is final: the analysis is never
    given a turn that may still grow at its end. *)
Theorem turn_complete_exchange (currentPersonaId : jsstring) (w : World) :
  let view := turns (log (finalizeTurn w)) in
  fst (handleTurnComplete currentPersonaId w) = finalizeTurn w
  /\ (snd (handleTurnComplete currentPersonaId w) = None <->
        forall t, t ∈ view -> finalUser t = false)
  /\ (forall job, snd (handleTurnComplete currentPersonaId w) = Some job ->
        rj_persona job = currentPersonaId
        /\ exists before t rest,
             view = before ++ t :: rest
             /\ rj_exchange job = t :: rest
             /\ finalUser t = true
             /\ Forall (fun x => finalUser x = false) rest)
  /\ (forall pid p job l,
        ViewSynced w ->
        activePersonaId (app w) = Some pid -> truthy pid = true ->
        getPersonaById (app w) pid = Some p ->
        snd (handleTurnComplete currentPersonaId w) = Some job ->
        list.last (rj_exchange job) = Some l ->
        isFinal l = true).
Proof.
  intros view.
  assert (forall job, snd (handleTurnComplete currentPersonaId w) = Some job ->
            rj_persona job = currentPersonaId
            /\ exists before t rest,
                 view = before ++ t :: rest
                 /\ rj_exchange job = t :: rest
                 /\ finalUser t = true
                 /\ Forall (fun x => finalUser x = false) rest) as Hjob.
  { intros job. unfold handleTurnComplete. fold view.
    destruct (lastUserScan_spec view (length view) ltac:(lia))
      as [[Hs _] | (k & t & Hs & Hk & Hkt & Hkf & Hafter)]; rewrite Hs.
    - cbn. discriminate.
    - rewrite (proj2 (Z.eqb_neq _ _)) by lia. cbn [negb snd].
      intros Hj. injection Hj as <-. split; [reflexivity|].
      exists (take k view), t, (drop (S k) view).
      assert (drop k view = t :: drop (S k) view) as Hdrop
        by (by apply drop_S).
      split; [by rewrite <- Hdrop, take_drop|]. split.
      + cbn [rj_exchange]. unfold slice.
        rewrite (proj2 (Z.ltb_ge _ _)) by lia. by rewrite Nat2Z.id.
      + split; [exact Hkf|]. apply Forall_forall. intros x Hx.
        apply list_elem_of_In, list_elem_of_lookup in Hx as [j Hj].
        rewrite lookup_drop in Hj.
        apply (Hafter (S k + j)%nat x); [|exact Hj].
        apply lookup_lt_Some in Hj. lia. }
  split; [|split; [|split]].
  - unfold handleTurnComplete. by destruct (negb _).
  - split.
    + intros Hnone t Ht. unfold handleTurnComplete in Hnone. fold view in Hnone.
      destruct (lastUserScan_spec view (length view) ltac:(lia))
        as [[Hs Hall] | (k & t' & Hs & Hk & _)]; rewrite Hs in Hnone.
      * apply list_elem_of_lookup in Ht as [i Hi].
        apply (Hall i t); [by apply lookup_lt_Some in Hi | exact Hi].
      * rewrite (proj2 (Z.eqb_neq _ _)) in Hnone by lia. discriminate Hnone.
    + intros Hall.
      destruct (snd (handleTurnComplete currentPersonaId w)) as [job|] eqn:E;
        [|reflexivity].
      destruct (Hjob job eq_refl) as (_ & before & t & rest & Hv & _ & Hf & _).
      rewrite (Hall t) in Hf; [discriminate|].
      rewrite Hv. apply elem_of_app. right. apply list_elem_of_here.
  - exact Hjob.
  - intros pid p job l Hsync Ha Ht Hp Hj Hl.
    destruct (Hjob job Hj) as (_ & before & t & rest & Hv & Hex & _).
    destruct (finalizeTurn_known w pid p Hp) as (q & Hq).
    assert (activePersonaId (app (finalizeTurn w)) = Some pid) as Ha'.
    { unfold finalizeTurn. rewrite Ha, Ht, Hp. cbn [negb].
      destruct (length (chatHistory p) =? 0)%nat; [exact Ha|].
      destruct (list.last (chatHistory p)) as [l0|]; [|exact Ha].
      destruct (isFinal l0); exact Ha. }
    pose proof (ViewSynced_finalizeTurn w Hsync pid q Ha' Ht Hq) as Hview.
    apply (finalizeTurn_last_final w pid p l Ha Ht Hp).
    unfold historyOf. rewrite Hq. cbn [from_option]. rewrite <- Hview.
    fold view. rewrite Hv, Hex in *.
    rewrite last_app. by rewrite Hl.
Qed.

Lemma turn_complete_exchange_witness :
  snd (handleTurnComplete idP1 streamedWorld)
  = Some (mkRapportJob idP1 [mkTurn 2 user (js "Hi") true None;
                             mkTurn 3 agent (js "Hello there") true None])
  /\ (forall l, list.last [mkTurn 2 user (js "Hi") true None;
                           mkTurn 3 agent (js "Hello there") true None] = Some l ->
                isFinal l = true)
  /\ snd (handleTurnComplete idP1 midReplyWorld) = None.
Proof.
  split; [reflexivity|]. split.
  - intros l.
    apply (proj2 (proj2 (proj2 (turn_complete_exchange idP1 streamedWorld))) idP1
             (with_chatHistory (samplePersona idP1)
                [mkTurn 2 user (js "Hi") true None;
                 mkTurn 3 agent (js "Hello there") false None])
             (mkRapportJob idP1 [mkTurn 2 user (js "Hi") true None;
                                 mkTurn 3 agent (js "Hello there") true None]) l);
      try reflexivity.
    intros pid p Ha _ Hp. injection Ha as <-. by injection Hp as <-.
  - apply (proj2 (proj1 (proj2 (turn_complete_exchange idP1 midReplyWorld)))).
    intros t Ht. cbn in Ht. apply list_elem_of_singleton in Ht as ->. reflexivity.
Defined.

Lemma truthy_nil s : truthy s = false <-> s = [].
Proof. destruct s; cbn; split; congruence. Qed.

(** A [content] event whose parts carry no text changes nothing: no turn
    is created for it and none is extended. One that carries text leaves
    a known persona with an open agent turn as trailing turn, whose text
    ends with that text: after the text the turn had, when the trailing
    turn was an open agent turn, and alone in a new turn otherwise. If
    the persona is the active one, the [turncomplete] that follows seals
    that very turn. *)
Theorem content_opens_agent_turn (now : Z) (pid : jsstring)
    (parts : option (list (option jsstring))) (w : World) (p : Persona) :
  (contentText parts = [] -> handleContent now pid parts w = w)
  /\ (getPersonaById (app w) pid = Some p -> contentText parts <> [] ->
        exists l,
          list.last (historyOf (handleContent now pid parts w) pid) = Some l
          /\ role l = agent /\ isFinal l = false
          /\ (forall l0, list.last (chatHistory p) = Some l0 ->
                extendsTrailing agent (chatHistory p) = true ->
                text l = text l0 ++ contentText parts
                /\ length (historyOf (handleContent now pid parts w) pid)
                   = length (chatHistory p))
          /\ (extendsTrailing agent (chatHistory p) = false ->
                text l = contentText parts
                /\ length (historyOf (handleContent now pid parts w) pid)
                   = S (length (chatHistory p)))
          /\ (activePersonaId (app w) = Some pid -> truthy pid = true ->
                list.last (historyOf (fst (handleTurnComplete pid
                                             (handleContent now pid parts w))) pid)
                = Some (mkTurn (timestamp l) agent (text l) true (reaction l)))).
Proof.
  split.
  - intros Hnil. unfold handleContent. by rewrite Hnil.
  - intros Hp Hne. unfold handleContent.
    destruct (truthy (contentText parts)) eqn:Ht;
      [|by apply truthy_nil in Ht]. cbn [negb].
    set (txt := contentText parts) in *.
    destruct (appendTurn_history now pid agent txt None w p Hp) as (p' & Hp' & Hh).
    assert (historyOf (appendTurn now pid agent txt None w) pid
            = appendedHistory now agent txt None (chatHistory p)) as Hhist
      by (unfold historyOf; by rewrite Hp').
    assert (exists l, list.last (appendedHistory now agent txt None (chatHistory p)) = Some l
              /\ role l = agent /\ isFinal l = false
              /\ (forall l0, list.last (chatHistory p) = Some l0 ->
                    extendsTrailing agent (chatHistory p) = true ->
                    text l = text l0 ++ txt
                    /\ length (appendedHistory now agent txt None (chatHistory p))
                       = length (chatHistory p))
              /\ (extendsTrailing agent (chatHistory p) = false ->
                    text l = txt
                    /\ length (appendedHistory now agent txt None (chatHistory p))
                       = S (length (chatHistory p)))) as (l & Hl & Hr & Hf & Hext & Hnew).
    { destruct (extendsTrailing agent (chatHistory p)) eqn:He.
      - unfold extendsTrailing in He.
        destruct (list.last (chatHistory p)) as [l0|] eqn:Hl0; [|discriminate].
        apply andb_true_iff in He as [Hr0 Hf0].
        apply bool_decide_eq_true in Hr0. apply negb_true_iff in Hf0.
        apply last_Some in Hl0 as [h Hh0]. rewrite Hh0.
        rewrite appendedHistory_extend by done.
        eexists. split; [apply last_snoc|]. cbn.
        split; [exact Hr0|]. split; [exact Hf0|]. split; [|discriminate].
        intros l1 Hl1 _. rewrite ?last_snoc in Hl1. injection Hl1 as <-.
        split; [reflexivity|]. by rewrite !length_app.
      - rewrite appendedHistory_fresh by exact He.
        eexists. split; [apply last_snoc|]. cbn.
        split; [reflexivity|]. split; [reflexivity|]. split; [discriminate|].
        intros _. split; [reflexivity|]. rewrite length_app. cbn. lia. }
    exists l. rewrite Hhist. split; [exact Hl|]. split; [exact Hr|].
    split; [exact Hf|]. split; [exact Hext|]. split; [exact Hnew|].
    intros Ha Hta.
    assert (fst (handleTurnComplete pid (appendTurn now pid agent txt None w))
            = finalizeTurn (appendTurn now pid agent txt None w)) as ->
      by (unfold handleTurnComplete; by destruct (negb _)).
    rewrite (finalizeTurn_history _ pid p'); [|by rewrite appendTurn_active|exact Hta|exact Hp'].
    rewrite Hh, Hl, Hf, Hr.
    apply last_replace. intros Hnil. by rewrite Hnil in Hl.
Qed.

Lemma content_opens_agent_turn_witness :
  handleContent 3 idP1 (Some [None; Some []]) greetedWorld = greetedWorld
  /\ exists l,
       list.last (historyOf (handleContent 3 idP1
                               (Some [Some (js "Hello"); None; Some (js "there")])
                               greetedWorld) idP1) = Some l
       /\ role l = agent /\ isFinal l = false.
Proof.
  split.
  - apply (proj1 (content_opens_agent_turn 3 idP1 (Some [None; Some []]) greetedWorld
                    (samplePersona idP1))). reflexivity.
  - destruct (proj2 (content_opens_agent_turn 3 idP1
                       (Some [Some (js "Hello"); None; Some (js "there")]) greetedWorld
                       (with_chatHistory (samplePersona idP1)
                          [mkTurn 1 user (js "Hi") true None]))
                eq_refl ltac:(discriminate)) as (l & Hl & Hr & Hf & _).
    by exists l.
Defined.

(** ** The session: journal jobs *)

Lemma disconnect_jobs s :
  exists new, journalJobs (disconnect s) = journalJobs s ++ new
    /\ Forall (fun j => job_turns j <> []) new
    /\ (length new <= pendingCall s)%nat
    /\ activeCallPersonaId (disconnect s) = None.
Proof.
  unfold disconnect, pendingCall.
  destruct (activeCallPersonaId s) as [pid|];
    [|exists []; rewrite app_nil_r; repeat split; [constructor | cbn; lia]].
  cbn [truthy_opt]. destruct (truthy pid);
    [|exists []; rewrite app_nil_r; repeat split; [constructor | cbn; lia]].
  destruct (0 <? length (turns (log (world s))))%nat eqn:E;
    [|exists []; rewrite app_nil_r; repeat split; [constructor | cbn; lia]].
  eexists [_]. repeat split; [|cbn; lia].
  constructor; [|constructor]. cbn. intros Hnil. rewrite Hnil in E. discriminate E.
Qed.

Ltac no_new_job :=
  exists []; rewrite app_nil_r; split; [reflexivity|]; split; [apply Forall_nil|];
  unfold pendingCall; cbn;
  repeat match goal with
         | |- context [truthy_opt ?x] => destruct (truthy_opt x)
         end; lia.

(** On a render that is current the bound handlers are those of the
    session. *)
Lemma onCloseBound_current s : onCloseBound (connected s) s = onClose s.
Proof. reflexivity. Qed.

Lemma handleBackBound_current s : handleBackBound (render s) s = handleBack s.
Proof. reflexivity. Qed.

(** A [close] handler of a render that read [connected = false] leaves
    the stores, the reference and the jobs alone, whatever the cell holds. *)
Lemma onCloseBound_idle s :
  onCloseBound false s
  = mkSession (world s) false (activeCallPersonaId s) (journalJobs s) (clientDisconnects s).
Proof. reflexivity. Qed.

Lemma sessionStep_jobs h e :
  exists new,
    journalJobs (session (sessionStep h e)) = journalJobs (session h) ++ new
    /\ Forall (fun j => job_turns j <> []) new
    /\ (length new + pendingCall (session (sessionStep h e))
        <= pendingCall (session h) + paysJob e)%nat.
Proof.
  destruct h as [s v]. destruct e; cbn [sessionStep session rendered paysJob].
  - unfold connect.
    destruct (truthy_opt (id <$> getActivePersona (app (world s)))) eqn:E.
    + exists []. rewrite app_nil_r. split; [reflexivity|]. split; [apply Forall_nil|].
      unfold pendingCall. cbn. rewrite E.
      destruct (truthy_opt (activeCallPersonaId s)); lia.
    + no_new_job.
  - no_new_job.
  - unfold onCloseBound. destruct (r_connected v).
    + destruct (disconnect_jobs s) as (new & Hj & Hne & Hlen & Hcall).
      exists new. cbn. split; [exact Hj|]. split; [exact Hne|].
      unfold pendingCall at 1. cbn. rewrite Hcall. cbn. lia.
    + no_new_job.
  - unfold handleCallEnd.
    destruct (disconnect_jobs s) as (new & Hj & Hne & Hlen & Hcall).
    exists new. split; [exact Hj|]. split; [exact Hne|].
    unfold pendingCall at 1. rewrite Hcall. cbn. lia.
  - unfold handleBackBound. destruct (r_connected v).
    + unfold handleCallEnd.
      destruct (disconnect_jobs
                  (mkSession (selectPersona None (world s)) (connected s)
                             (activeCallPersonaId s) (journalJobs s) (clientDisconnects s)))
        as (new & Hj & Hne & Hlen & Hcall).
      exists new. split; [exact Hj|]. split; [exact Hne|].
      unfold pendingCall at 1. rewrite Hcall.
      unfold pendingCall in *. cbn in *. lia.
    + destruct (0 <? length (r_turns v))%nat eqn:E.
      * destruct (r_persona v) as [p|].
        -- eexists [_]. cbn. split; [reflexivity|].
           split; [|unfold pendingCall; cbn;
                    destruct (truthy_opt (activeCallPersonaId s)); lia].
           constructor; [|constructor]. cbn. intros Hnil. rewrite Hnil in E. discriminate E.
        -- no_new_job.
      * no_new_job.
  - no_new_job.
  - no_new_job.
Qed.

(** Journal jobs are only ever added, each carries at least one turn, and
    each is paid for: over any sequence of connects, opens, closes,
    hang-ups, back navigations, store calls and renders, with the [close]
    and back handlers reading what the last render read, the jobs
    dispatched number at most the connects and back navigations of the
    sequence, plus one if a call was under way at its start. So a call is
    journalled at most once, however many [close] events and hang-ups end
    it and wherever the renders fall. *)
Theorem journal_jobs_paid (evs : list SessionEvent) (h : Hook) :
  exists new,
    journalJobs (session (sessionRun evs h)) = journalJobs (session h) ++ new
    /\ Forall (fun j => job_turns j <> []) new
    /\ (length new + pendingCall (session (sessionRun evs h))
        <= pendingCall (session h) + jobsPaid evs)%nat.
Proof.
  revert h. induction evs as [|e evs IH]; intros h.
  - exists []. rewrite app_nil_r. split; [reflexivity|]. split; [apply Forall_nil|].
    cbn. lia.
  - destruct (sessionStep_jobs h e) as (new1 & Hj1 & Hne1 & Hlen1).
    destruct (IH (sessionStep h e)) as (new2 & Hj2 & Hne2 & Hlen2).
    exists (new1 ++ new2). cbn [sessionRun fold_left jobsPaid foldr].
    fold (sessionRun evs (sessionStep h e)). fold (jobsPaid evs).
    split; [by rewrite Hj2, Hj1, app_assoc|].
    split; [apply Forall_app; by split|].
    rewrite length_app. lia.
Qed.

Example sampleCall_journalled_once :
  journalJobs (session (sessionRun sampleCall idleHook))
  = [mkJob idP1 [mkTurn 1 user (js "Hi") true None;
                 mkTurn 2 agent (js "Hello!") true None]]
  /\ jobsPaid sampleCall = 1%nat.
Proof. split; reflexivity. Qed.

(** A [close] that comes before the render after the [open]: its handler
    read [connected = false], so nothing is dispatched, the view stays and
    the call persona stays set; the hang-up that follows journals the call. *)
Example hastyCall_close_skipped :
  journalJobs (session (sessionRun hastyCall idleHook)) = []
  /\ turns (log (world (session (sessionRun hastyCall idleHook))))
     = [mkTurn 1 user (js "Hi") true None]
  /\ activeCallPersonaId (session (sessionRun hastyCall idleHook)) = Some idP1
  /\ connected (session (sessionRun hastyCall idleHook)) = false
  /\ journalJobs (session (sessionRun (hastyCall ++ [EvHangUp]) idleHook))
     = [mkJob idP1 [mkTurn 1 user (js "Hi") true None]]
  /\ journalJobs (session (sessionRun (hastyCall ++ [EvRender; EvClose]) idleHook)) = [].
Proof. repeat split. Qed.

(** Ending a call never costs a turn of a persistent history: [disconnect]
    and the [close] handler leave the application store as it is, and
    [handleBack] changes nothing in it but the active persona, which it
    clears. Selecting the persona again after a [disconnect] shows its
    whole history, though the [disconnect] emptied the view. Leaving a
    text conversation leaves the view as it is. *)
Theorem call_end_keeps_history (s : Session) :
  app (world (disconnect s)) = app (world s)
  /\ app (world (onClose s)) = app (world s)
  /\ personas (app (world (handleBack s))) = personas (app (world s))
  /\ activePersonaId (app (world (handleBack s))) = None
  /\ (connected s = false -> log (world (handleBack s)) = log (world s))
  /\ (forall pid p, truthy pid = true -> getPersonaById (app (world s)) pid = Some p ->
        turns (log (selectPersona (Some pid) (world (disconnect s)))) = chatHistory p
        /\ historyOf (selectPersona (Some pid) (world (disconnect s))) pid = chatHistory p).
Proof.
  assert (forall s', app (world (disconnect s')) = app (world s')) as Hd.
  { intros s'. unfold disconnect.
    destruct (activeCallPersonaId s') as [pid|]; [|reflexivity].
    destruct (truthy pid); [|reflexivity].
    by destruct (0 <? length (turns (log (world s'))))%nat. }
  split; [apply Hd|]. split; [|split; [|split; [|split]]].
  - unfold onClose. destruct (connected s); cbn; [apply Hd | reflexivity].
  - unfold handleBack, handleCallEnd. destruct (connected s).
    + by rewrite Hd.
    + destruct (0 <? length (turns (log (world s))))%nat; [|reflexivity].
      by destruct (getActivePersona (app (world s))).
  - unfold handleBack, handleCallEnd. destruct (connected s).
    + by rewrite Hd.
    + destruct (0 <? length (turns (log (world s))))%nat; [|reflexivity].
      by destruct (getActivePersona (app (world s))).
  - intros Hc. unfold handleBack. rewrite Hc.
    destruct (0 <? length (turns (log (world s))))%nat; [|reflexivity].
    by destruct (getActivePersona (app (world s))).
  - intros pid p Ht Hp. unfold selectPersona, historyOf. rewrite Ht, Hd. cbn.
    pose proof (getPersonaById_clear pid _ _ Hp) as Hc.
    unfold getPersonaById in Hc. cbn in Hc. unfold getPersonaById. cbn.
    by rewrite Hc.
Qed.

Lemma call_end_keeps_history_witness :
  log (world (handleBack (sampleSession false))) = log (world (sampleSession false))
  /\ turns (log (world (disconnect (sampleSession true)))) = []
  /\ turns (log (selectPersona (Some idP1) (world (disconnect (sampleSession true)))))
     = [mkTurn 1 user (js "Hi") true None].
Proof.
  split; [|split; [reflexivity|]].
  - apply (proj1 (proj2 (proj2 (proj2 (proj2 (call_end_keeps_history
                                                (sampleSession false))))))).
    reflexivity.
  - apply (proj2 (proj2 (proj2 (proj2 (proj2 (call_end_keeps_history
                                                (sampleSession true)))))) idP1
             (with_chatHistory (samplePersona idP1) [mkTurn 1 user (js "Hi") true None]));
      reflexivity.
Defined.

(** ** White space and [trim] *)

Lemma trimStart_white s : AllWhite s -> trimStart s = [].
Proof.
  induction s as [|c s IH]; intros H; [reflexivity|].
  apply Forall_cons_iff in H as [Hc Hs]. cbn. rewrite Hc. by apply IH.
Qed.

Lemma trim_nil_iff s : trim s = [] <-> AllWhite s.
Proof.
  split.
  - intros Ht. destruct (trim_split s) as (a & b & Hs & Ha & Hb).
    rewrite Ht in Hs. rewrite Hs. cbn. by apply AllWhite_app.
  - intros Hw. unfold trim. by rewrite trimStart_white.
Qed.

Lemma AllWhite_app_l a b : AllWhite (a ++ b) -> AllWhite a.
Proof. intros H. by apply Forall_app in H as [H _]. Qed.

Lemma join_head sep x rest : exists tail, join sep (x :: rest) = x ++ tail.
Proof.
  destruct rest as [|y rest].
  - exists []. cbn. by rewrite app_nil_r.
  - eexists. apply join_cons2.
Qed.

(** A text that starts with a part that is not blank is not blank. *)
Lemma join_not_blank sep x rest : trim x <> [] -> trim (join sep (x :: rest)) <> [].
Proof.
  intros Hx Hj. apply Hx. apply trim_nil_iff.
  apply trim_nil_iff in Hj. destruct (join_head sep x rest) as (tail & Ht).
  rewrite Ht in Hj. by apply AllWhite_app_l in Hj.
Qed.

(** ** Shared memories from text *)

Lemma splitOnFrom_line sep line : forall cur s,
  Forall (fun c => c <> sep) line ->
  splitOnFrom sep cur (line ++ s) = splitOnFrom sep (cur ++ line) s.
Proof.
  induction line as [|c line IH]; intros cur s Hl; [by rewrite app_nil_r|].
  apply Forall_cons_iff in Hl as [Hc Hl]. cbn.
  rewrite (proj2 (N.eqb_neq c sep) Hc), (IH _ _ Hl), <- app_assoc. reflexivity.
Qed.

Lemma splitOnFrom_join sep ls : forall cur,
  Forall (Forall (fun c => c <> sep)) ls ->
  splitOnFrom sep cur (join [sep] ls)
  = match ls with
    | [] => [cur]
    | l :: rest => (cur ++ l) :: rest
    end.
Proof.
  induction ls as [|l ls IH]; intros cur Hls; [reflexivity|].
  apply Forall_cons_iff in Hls as [Hl Hls].
  destruct ls as [|l2 ls].
  - cbn [join]. rewrite <- (app_nil_r l) at 1.
    by rewrite (splitOnFrom_line sep l cur [] Hl).
  - rewrite join_cons2, (splitOnFrom_line sep l cur _ Hl).
    change ([sep] ++ ?x) with (sep :: x). cbn [splitOnFrom].
    rewrite N.eqb_refl. f_equal. by rewrite (IH [] Hls).
Qed.

Lemma splitOnFrom_no_sep sep s : forall cur,
  Forall (fun c => c <> sep) cur ->
  Forall (Forall (fun c => c <> sep)) (splitOnFrom sep cur s).
Proof.
  induction s as [|c s IH]; intros cur Hcur; cbn.
  - by constructor.
  - destruct (N.eqb_spec c sep) as [->|Hne].
    + constructor; [exact Hcur|]. apply IH. constructor.
    + apply IH. apply Forall_app. split; [exact Hcur|]. by constructor.
Qed.

Lemma contents_imap (clock : nat -> jsstring) (ls : list jsstring) :
  m_content <$> imap (fun i line => mkMemory line (clock i) 5 mOther) ls = ls.
Proof.
  revert clock. induction ls as [|l ls IH]; intros clock; [reflexivity|].
  cbn. f_equal. apply (IH (fun i => clock (S i))).
Qed.

Lemma filter_all {A} (f : A -> bool) (l : list A) :
  Forall (fun x => f x = true) l -> List.filter f l = l.
Proof.
  induction l as [|x l IH]; intros H; [reflexivity|].
  apply Forall_cons_iff in H as [Hx Hl]. cbn. by rewrite Hx, IH.
Qed.

Lemma memoryFallback_contents clock text :
  m_content <$> memoryFallback clock text = List.filter notBlank (splitLines text).
Proof. unfold memoryFallback. apply contents_imap. Qed.

(** [structureMemoryText] on a blank text returns no item, whatever the
    remote service would say. When the remote call or the parse of its
    reply fails, the items are the lines of the text that are not blank, in
    order and as they are: no item has a blank content or a line feed in
    it, and each has importance 5 and type other. Joining those contents
    with line feeds, as the persona form does to fill its text area, and
    structuring the text again gives the same contents back. *)
Theorem memory_lines_round_trip (clock : nat -> jsstring) (memoryText : jsstring)
    (remote : option (list SharedMemoryItem)) :
  (trim memoryText = [] -> structureMemoryText clock memoryText remote = [])
  /\ Forall (fun item => IsMemoryLine (m_content item)
                         /\ m_importance item = 5 /\ m_type item = mOther)
            (structureMemoryText clock memoryText None)
  /\ (forall ls clock', Forall IsMemoryLine ls ->
        m_content <$> structureMemoryText clock' (join [10%N] ls) None = ls)
  /\ (forall clock',
        m_content <$> structureMemoryText clock'
                        (join [10%N] (m_content <$> structureMemoryText clock memoryText None))
                        None
        = m_content <$> structureMemoryText clock memoryText None).
Proof.
  assert (forall ck text,
            Forall (fun item => IsMemoryLine (m_content item)
                                /\ m_importance item = 5 /\ m_type item = mOther)
                   (structureMemoryText ck text None)) as Hitems.
  { intros ck text. unfold structureMemoryText.
    destruct (negb (truthy (trim text))); [constructor|].
    unfold memoryFallback. apply Forall_forall. intros item Hin.
    apply list_elem_of_In, elem_of_lookup_imap in Hin as (i & line & -> & Hline).
    cbn. split; [|by split].
    assert (In line (List.filter notBlank (splitLines text))) as Hl
      by (apply list_elem_of_In, list_elem_of_lookup; eauto).
    apply filter_In in Hl as [Hl Hnb]. split.
    - unfold notBlank in Hnb. apply negb_true_iff in Hnb.
      by apply bool_decide_eq_false in Hnb.
    - pose proof (splitOnFrom_no_sep 10%N text [] ltac:(constructor)) as Hall.
      rewrite Forall_forall in Hall. by apply Hall. }
  assert (forall ls ck, Forall IsMemoryLine ls ->
            m_content <$> structureMemoryText ck (join [10%N] ls) None = ls) as Hround.
  { intros ls ck Hls. unfold structureMemoryText.
    destruct ls as [|l ls]; [reflexivity|].
    assert (trim (join [10%N] (l :: ls)) <> []) as Hnb.
    { apply join_not_blank. apply Forall_cons_iff in Hls as [[Hl _] _]. exact Hl. }
    destruct (truthy (trim (join [10%N] (l :: ls)))) eqn:Ht;
      [|by apply truthy_nil in Ht]. cbn [negb].
    rewrite memoryFallback_contents. unfold splitLines.
    rewrite splitOnFrom_join.
    - rewrite app_nil_l. apply filter_all.
      apply Forall_forall. intros x Hx. rewrite Forall_forall in Hls.
      destruct (Hls x Hx) as [Hxt _]. unfold notBlank.
      by rewrite bool_decide_eq_false_2.
    - apply Forall_forall. intros x Hx. rewrite Forall_forall in Hls.
      by destruct (Hls x Hx). }
  split; [|split; [exact (Hitems clock memoryText)|split; [exact Hround|]]].
  - intros Hb. unfold structureMemoryText. by rewrite Hb.
  - intros clock'. apply Hround.
    apply Forall_forall. intros x Hx.
    apply list_elem_of_In, list_elem_of_fmap in Hx as (item & -> & Hitem).
    pose proof (Hitems clock memoryText) as Hall. rewrite Forall_forall in Hall.
    apply list_elem_of_In in Hitem. by destruct (Hall item Hitem).
Qed.

Lemma memory_lines_round_trip_witness :
  structureMemoryText (fun _ => js "t") (js "   ") (Some [mkMemory (js "x") [] 9 mFact]) = []
  /\ m_content <$> structureMemoryText (fun _ => js "t")
                     (join [10%N] [js "We met in Paris"; js " I have a dog"]) None
     = [js "We met in Paris"; js " I have a dog"].
Proof.
  split.
  - apply (proj1 (memory_lines_round_trip (fun _ => js "t") (js "   ")
                    (Some [mkMemory (js "x") [] 9 mFact]))). reflexivity.
  - apply (proj1 (proj2 (proj2 (memory_lines_round_trip (fun _ => js "t") [] None)))).
    repeat constructor; try discriminate.
Defined.

(** ** The guard of the journal update *)

Lemma journalLine_not_blank uName persona t : trim (journalLine uName persona t) <> [].
Proof.
  intros H. apply trim_nil_iff in H. unfold journalLine in H.
  apply Forall_app in H as [_ H]. apply Forall_app in H as [H _].
  apply Forall_cons_iff in H as [H _]. discriminate H.
Qed.

(** The journal update goes on to the remote call exactly when the persona
    is known and there is at least one turn to process: a transcript of one
    turn or more is never blank, as each of its lines holds a colon. The
    jobs that [disconnect] and [handleBack] dispatch carry a turn, so for
    them only a persona deleted in the meantime stops the update. *)
Theorem journal_update_guard (st : AppState) (pid : jsstring)
    (turnsToProcess : list ConversationTurn) :
  updatePersonaJournal_proceeds st pid turnsToProcess = true
  <-> is_Some (getPersonaById st pid) /\ turnsToProcess <> [].
Proof.
  unfold updatePersonaJournal_proceeds, journalTranscript.
  destruct turnsToProcess as [|t ts].
  - cbn. split; [discriminate | by intros [_ H]].
  - set (tr := join [10%N] (List.map _ (t :: ts))).
    assert (trim tr <> []) as Hnb by apply join_not_blank, journalLine_not_blank.
    assert (truthy tr = true) as Htr.
    { destruct tr; [by destruct Hnb | reflexivity]. }
    assert ((length (trim tr) =? 0)%nat = false) as Hlen.
    { apply Nat.eqb_neq. destruct (trim tr); [done | cbn; lia]. }
    rewrite Htr, Hlen. cbn [negb orb]. rewrite orb_false_r, negb_involutive.
    split.
    + intros H. apply bool_decide_eq_true in H. by split.
    + intros [H _]. by apply bool_decide_eq_true.
Qed.

Example journal_update_guard_samples :
  updatePersonaJournal_proceeds (app greetedWorld) idP1
    [mkTurn 1 user (js "Hi") true None] = true
  /\ updatePersonaJournal_proceeds (app greetedWorld) idP1 [] = false
  /\ updatePersonaJournal_proceeds (app (deletePersona idP1 greetedWorld)) idP1
       [mkTurn 1 user (js "Hi") true None] = false
  /\ journalTranscript (app greetedWorld) idP1
       [mkTurn 1 user (js "Hi") true None; mkTurn 2 agent (js "Hello!") true None]
     = js "User: Hi" ++ [10%N] ++ js "p1: Hello!".
Proof. repeat split. Qed.

(** ** The reaction of a reply *)

Lemma selectPersona_other q w pid :
  pid <> q ->
  getPersonaById (app (selectPersona (Some q) w)) pid = getPersonaById (app w) pid.
Proof.
  intros Hne. unfold selectPersona. destruct (truthy q); [|reflexivity].
  cbn. unfold getPersonaById. cbn. by apply find_map_persona_ne.
Qed.

Lemma updateTurn_other i u w pid :
  activePersonaId (app w) <> Some pid ->
  getPersonaById (app (updateTurn i u w)) pid = getPersonaById (app w) pid.
Proof.
  intros Hne. unfold updateTurn.
  destruct (activePersonaId (app w)) as [a|] eqn:Ha; [|reflexivity].
  destruct (truthy a); [|reflexivity]. cbn [negb].
  assert (pid <> a) as Hpa by congruence.
  destruct (getPersonaById (updateTurnInHistory a i u (app w)) a);
    cbn [app]; by apply getPersonaById_updateTurn_ne.
Qed.

Lemma selectPersona_lookup q w pq :
  truthy q = true -> getPersonaById (app w) q = Some pq ->
  activePersonaId (app (selectPersona (Some q) w)) = Some q
  /\ getPersonaById (app (selectPersona (Some q) w)) q = Some (with_unreadCount pq 0).
Proof.
  intros Ht Hp. unfold selectPersona. rewrite Ht. cbn. split; [reflexivity|].
  pose proof (getPersonaById_clear q _ _ Hp) as Hc.
  unfold getPersonaById in Hc. cbn in Hc. unfold getPersonaById. cbn. exact Hc.
Qed.

(** Where the reaction that comes with a reply is written. When the text
    is sent to the active persona and starts a turn, the index kept is
    that of the new turn. The reaction is then written by [updateTurn] at
    that index in the history of the persona that is active when the reply
    arrives. If that is still the persona the text was sent to, the
    reaction is set on the turn sent and nothing else changes in any
    history. If the user has moved to another persona, the history of the
    persona the text was sent to is left as it is, so the message answered
    never gets its reaction, and the reaction is written on the turn of
    the other persona that has the same index, by the usual rule (cleared
    if that turn carried it already); that history is left alone only if
    it is too short to have the index. With no active persona nothing is
    written, and a reply without reaction changes nothing. *)
Theorem reply_reaction_target (now : Z) (pid : jsstring) (currentText r : jsstring)
    (w : World) (p : Persona) :
  activePersonaId (app w) = Some pid ->
  truthy pid = true ->
  getPersonaById (app w) pid = Some p ->
  extendsTrailing user (chatHistory p) = false ->
  truthy r = true ->
  let w1 := fst (sendUserText now pid currentText w) in
  let userTurnIndex := snd (sendUserText now pid currentText w) in
  let sent := mkTurn now user currentText true None in
  userTurnIndex = Z.of_nat (length (chatHistory p))
  /\ historyOf w1 pid = chatHistory p ++ [sent]
  /\ (historyOf (reactToSent (Some r) userTurnIndex w1) pid
      = chatHistory p ++ [with_reaction sent (Some r)]
      /\ forall q, q <> pid ->
           getPersonaById (app (reactToSent (Some r) userTurnIndex w1)) q
           = getPersonaById (app w1) q)
  /\ (forall q pq, q <> pid -> truthy q = true -> getPersonaById (app w1) q = Some pq ->
        let w2 := reactToSent (Some r) userTurnIndex (selectPersona (Some q) w1) in
        historyOf w2 pid = chatHistory p ++ [sent]
        /\ (forall t, at_index (chatHistory pq) userTurnIndex = Some t ->
              historyOf w2 q
              = <[Z.to_nat userTurnIndex :=
                    with_reaction t (if bool_decide (reaction t = Some r)
                                     then None else Some r)]> (chatHistory pq))
        /\ (at_index (chatHistory pq) userTurnIndex = None ->
              historyOf w2 q = chatHistory pq))
  /\ reactToSent (Some r) userTurnIndex (selectPersona None w1) = selectPersona None w1
  /\ reactToSent None userTurnIndex w1 = w1.
Proof.
  intros Ha Ht Hp Hext Hr. cbv zeta.
  change (fst (sendUserText now pid currentText w))
    with (appendTurn now pid user currentText (Some true) w).
  change (snd (sendUserText now pid currentText w))
    with (Z.of_nat (length (turns (log (appendTurn now pid user currentText
                                           (Some true) w)))) - 1).
  set (w1 := appendTurn now pid user currentText (Some true) w).
  set (idx := Z.of_nat (length (turns (log w1))) - 1).
  set (h1 := chatHistory p ++ [mkTurn now user currentText true None]).
  assert (w1 = mkWorld (updatePersonaChatHistory pid h1 (app w)) (mkLog h1)) as Hw1.
  { subst w1. unfold appendTurn.
    rewrite Hp, (bool_decide_eq_true_2 _ Ha).
    by rewrite appendedHistory_fresh by exact Hext. }
  assert (idx = Z.of_nat (length (chatHistory p))) as Hidx.
  { subst idx. rewrite Hw1. cbn [log turns].
    subst h1. rewrite length_app. cbn. lia. }
  clearbody idx.
  assert (getPersonaById (app w1) pid = Some (with_chatHistory p h1)) as Hp1
    by (rewrite Hw1; by apply getPersonaById_set_history).
  assert (historyOf w1 pid = h1) as Hh1 by (unfold historyOf; by rewrite Hp1).
  assert (activePersonaId (app w1) = Some pid) as Ha1 by (by rewrite Hw1).
  assert ((idx =? -1) = false) as Hne1 by (apply Z.eqb_neq; lia).
  assert (forall w', reactToSent (Some r) idx w' = updateTurn idx (reactionUpdate r) w')
    as Hreact.
  { intros w'. unfold reactToSent, handleReaction. cbn [truthy_opt].
    change (default [] (Some r)) with r. by rewrite Hr, Hne1. }
  split; [exact Hidx|]. split; [exact Hh1|]. split; [split|split; [|split]].
  - rewrite Hreact.
    destruct (updateTurn_active idx (reactionUpdate r) w1 pid _ Ha1 Ht Hp1) as (_ & Hp2 & _).
    unfold historyOf. rewrite Hp2. cbn [from_option].
    assert (at_index h1 idx = Some (mkTurn now user currentText true None)) as Hat.
    { unfold at_index. rewrite (proj2 (Z.leb_le 0 idx)) by lia.
      rewrite Hidx, Nat2Z.id. subst h1.
      by rewrite lookup_app_r, Nat.sub_diag by lia. }
    rewrite (react_once idx r (with_chatHistory p h1) _ Hat Hr).
    cbn [chatHistory with_chatHistory reaction].
    rewrite bool_decide_eq_false_2 by discriminate.
    rewrite Hidx, Nat2Z.id. subst h1.
    replace (length (chatHistory p)) with (length (chatHistory p) + 0)%nat at 1 by lia.
    by rewrite insert_app_r.
  - intros q Hq. rewrite Hreact. apply updateTurn_other. congruence.
  - intros q pq Hq Htq Hpq. rewrite Hreact.
    destruct (selectPersona_lookup q w1 pq Htq Hpq) as (Ha2 & Hp2).
    destruct (updateTurn_active idx (reactionUpdate r) _ q _ Ha2 Htq Hp2) as (_ & Hp3 & _).
    assert (chatHistory (with_unreadCount pq 0) = chatHistory pq) as Hsame
      by (by destruct pq).
    split; [|split].
    + unfold historyOf. rewrite updateTurn_other by congruence.
      rewrite selectPersona_other by congruence. by rewrite Hp1.
    + intros t Hat. unfold historyOf. rewrite Hp3. cbn [from_option].
      rewrite <- Hsame in Hat. rewrite (react_once idx r _ t Hat Hr). by rewrite Hsame.
    + intros Hout. unfold historyOf. rewrite Hp3. cbn [from_option].
      rewrite <- Hsame in Hout.
      by rewrite (updateTurnInPersona_out_of_range idx _ _ Hout).
  - by rewrite Hreact.
  - unfold reactToSent. reflexivity.
Qed.

Lemma reply_reaction_target_witness :
  let w1 := fst (sendUserText 5 idP1 (js "How are you?") twoChatsWorld) in
  let userTurnIndex := snd (sendUserText 5 idP1 (js "How are you?") twoChatsWorld) in
  let switched := reactToSent (Some heart) userTurnIndex (selectPersona (Some idP2) w1) in
  userTurnIndex = 1
  /\ historyOf (reactToSent (Some heart) userTurnIndex w1) idP1
     = [mkTurn 1 user (js "Hi") true None;
        mkTurn 5 user (js "How are you?") true (Some heart)]
  /\ historyOf switched idP1
     = [mkTurn 1 user (js "Hi") true None;
        mkTurn 5 user (js "How are you?") true None]
  /\ historyOf switched idP2
     = [mkTurn 2 agent (js "hey") true None;
        mkTurn 3 agent (js "you there?") true (Some heart)].
Proof.
  pose (w1 := fst (sendUserText 5 idP1 (js "How are you?") twoChatsWorld)).
  pose (pq := default (samplePersona idP2) (getPersonaById (app w1) idP2)).
  destruct (reply_reaction_target 5 idP1 (js "How are you?") heart twoChatsWorld
              (with_chatHistory (samplePersona idP1) [mkTurn 1 user (js "Hi") true None])
              eq_refl eq_refl eq_refl eq_refl eq_refl)
    as (Hi & _ & (Hr & _) & Hs & _).
  destruct (Hs idP2 pq ltac:(discriminate) eq_refl eq_refl) as (Hs1 & Hs2 & _).
  split; [exact Hi|]. split; [exact Hr|]. split; [exact Hs1|].
  exact (Hs2 (mkTurn 3 agent (js "you there?") true None) eq_refl).
Defined.

Lemma journal_update_guard_witness :
  updatePersonaJournal_proceeds (app greetedWorld) idP1
    [mkTurn 1 user (js "Hi") true None] = true.
Proof.
  apply (proj2 (journal_update_guard (app greetedWorld) idP1
                  [mkTurn 1 user (js "Hi") true None])).
  split; [by eexists | discriminate].
Defined.

(** ** Text conversations *)

Lemma AllFinal_not_extended r h : AllFinal h -> extendsTrailing r h = false.
Proof.
  intros Hh. unfold extendsTrailing.
  destruct (list.last h) as [l|] eqn:Hl; [|reflexivity].
  rewrite (Hh l); [apply andb_false_r|].
  apply last_Some in Hl as [h' ->]. apply elem_of_app. right. apply list_elem_of_here.
Qed.

Lemma AllFinal_same_flags h h' :
  isFinal <$> h' = isFinal <$> h -> AllFinal h -> AllFinal h'.
Proof.
  intros Hflags Hh t' Ht'. apply list_elem_of_lookup in Ht' as [i Hi].
  assert ((isFinal <$> h) !! i = Some (isFinal t')) as Hfi
    by (rewrite <- Hflags, list_lookup_fmap, Hi; reflexivity).
  rewrite list_lookup_fmap in Hfi.
  destruct (h !! i) as [t|] eqn:Ht; [|discriminate].
  cbn in Hfi. injection Hfi as <-. apply Hh. apply list_elem_of_lookup. eauto.
Qed.

Lemma AllSealed_set_history pid h (w : World) lg :
  AllSealed w -> AllFinal h ->
  AllSealed (mkWorld (updatePersonaChatHistory pid h (app w)) lg).
Proof.
  intros Hw Hh q Hq. cbn in Hq.
  apply elem_of_map_persona in Hq as [Hq | (p & Hp & _ & ->)]; [by apply Hw | exact Hh].
Qed.

Lemma AllSealed_same_histories (f : Persona -> Persona) pid (w : World) lg :
  (forall p, chatHistory (f p) = chatHistory p) ->
  AllSealed w -> AllSealed (mkWorld (set_personas (app w) (map_persona pid f (personas (app w)))) lg).
Proof.
  intros Hf Hw q Hq. cbn in Hq.
  apply elem_of_map_persona in Hq as [Hq | (p & Hp & _ & ->)]; [by apply Hw|].
  rewrite Hf. by apply Hw.
Qed.

Lemma finalizeTurn_AllSealed w : AllSealed w -> finalizeTurn w = w.
Proof.
  intros Hw. unfold finalizeTurn.
  destruct (activePersonaId (app w)) as [pid|]; [|reflexivity].
  destruct (truthy pid); [|reflexivity]. cbn [negb].
  destruct (getPersonaById (app w) pid) as [p|] eqn:Hp; [|reflexivity].
  destruct (length (chatHistory p) =? 0)%nat; [reflexivity|].
  destruct (list.last (chatHistory p)) as [l|] eqn:Hl; [|reflexivity].
  apply find_has_id in Hp as [Hin _].
  rewrite (Hw p Hin l); [reflexivity|].
  apply last_Some in Hl as [h' ->]. apply elem_of_app. right. apply list_elem_of_here.
Qed.

Lemma storeStep_AllSealed w o :
  AllSealed w -> textModeOp o = true -> AllSealed (storeStep w o).
Proof.
  intros Hw Ho. destruct o as [now pid r c fin| |i u|sel|pid|pid r]; cbn [storeStep].
  - cbn in Ho. apply bool_decide_eq_true in Ho. subst fin. unfold appendTurn.
    destruct (getPersonaById (app w) pid) as [p|] eqn:Hp; [|exact Hw].
    apply find_has_id in Hp as [Hin _].
    assert (AllFinal (appendedHistory now r c (Some true) (chatHistory p))) as Hnew.
    { rewrite appendedHistory_fresh by (apply AllFinal_not_extended; by apply Hw).
      apply AllFinal_snoc; [by apply Hw | reflexivity]. }
    destruct (bool_decide (activePersonaId (app w) = Some pid));
      [by apply AllSealed_set_history|].
    destruct (bool_decide (r = agent)); [|by apply AllSealed_set_history].
    apply (AllSealed_same_histories _ pid (mkWorld _ (log w))); [reflexivity|].
    by apply AllSealed_set_history.
  - by rewrite finalizeTurn_AllSealed.
  - cbn in Ho. repeat (apply andb_true_iff in Ho as [Ho ?]).
    repeat match goal with H : bool_decide _ = true |- _ =>
             apply bool_decide_eq_true in H end.
    destruct u as [ut ur utx uf ure]. cbn in *. subst.
    unfold updateTurn.
    destruct (activePersonaId (app w)) as [a|]; [|exact Hw].
    destruct (truthy a); [|exact Hw]. cbn [negb].
    assert (forall lg, AllSealed (mkWorld (updateTurnInHistory a i
                                            (mkUpdates None None None None ure) (app w)) lg))
      as Hcore.
    { intros lg q Hq. cbn in Hq.
      apply elem_of_map_persona in Hq as [Hq | (p & Hp & _ & ->)]; [by apply Hw|].
      apply (AllFinal_same_flags (chatHistory p)); [|by apply Hw].
      pose proof (updateTurnInPersona_words i ure p) as Hwords.
      apply (f_equal (fmap (fun x : Z * Role * jsstring * bool => snd x))) in Hwords.
      rewrite <- !list_fmap_compose in Hwords. exact Hwords. }
    destruct (getPersonaById _ a); apply Hcore.
  - unfold selectPersona. destruct sel as [pid|]; [|exact Hw].
    destruct (truthy pid); [|exact Hw].
    intros q Hq. cbn in Hq.
    apply elem_of_map_persona in Hq as [Hq | (p & Hp & _ & ->)];
      [by apply Hw | cbn; by apply Hw].
  - intros q Hq. cbn in Hq. apply list_elem_of_In, filter_In in Hq as [Hq _].
    apply Hw. by apply list_elem_of_In.
  - apply (AllSealed_same_histories _ pid w (log w)); [reflexivity | exact Hw].
Qed.

(** In a text conversation no turn is ever open and none is ever merged:
    from a store whose turns are all final, calls whose appends pass
    [isFinal = true] and whose turn updates carry a reaction at most keep
    every turn final; each such append to a known persona adds exactly one
    turn holding its text, and [finalizeTurn] has nothing to do. *)
Theorem text_mode_turns_final (ops : list StoreOp) (w : World) :
  AllSealed w ->
  forallb textModeOp ops = true ->
  AllSealed (storeRun ops w)
  /\ finalizeTurn (storeRun ops w) = storeRun ops w
  /\ (forall now pid r c p,
        getPersonaById (app (storeRun ops w)) pid = Some p ->
        historyOf (appendTurn now pid r c (Some true) (storeRun ops w)) pid
        = chatHistory p ++ [mkTurn now r c true None]).
Proof.
  intros Hw Hops.
  assert (AllSealed (storeRun ops w)) as Hend.
  { revert w Hw. induction ops as [|o ops IH]; intros w Hw; [exact Hw|].
    cbn in Hops. apply andb_true_iff in Hops as [Ho Hops].
    cbn. apply (IH Hops). by apply storeStep_AllSealed. }
  split; [exact Hend|]. split; [by apply finalizeTurn_AllSealed|].
  intros now pid r c p Hp.
  destruct (appendTurn_history now pid r c (Some true) _ p Hp) as (p' & Hp' & Hh).
  unfold historyOf. rewrite Hp'. cbn [from_option]. rewrite Hh.
  apply appendedHistory_fresh, AllFinal_not_extended.
  apply Hend. by apply find_has_id in Hp as [Hin _].
Qed.

Lemma text_mode_turns_final_witness :
  AllSealed (storeRun textOps (sampleWorld None))
  /\ historyOf (storeRun textOps (sampleWorld None)) idP1
     = [mkTurn 1 user (js "Hi") true (Some heart);
        mkTurn 2 agent (js "Hello!") true None;
        mkTurn 3 agent (js "How are you?") true None].
Proof.
  split; [|reflexivity].
  apply (text_mode_turns_final textOps (sampleWorld None)); [|reflexivity].
  intros p Hp t Ht. cbn in Hp.
  apply elem_of_cons in Hp as [->|Hp]; [by apply elem_of_nil in Ht|].
  apply list_elem_of_singleton in Hp as ->. by apply elem_of_nil in Ht.
Defined.
